(** * MillicastSignaling: the signaling session of millicast-sdk-js

    A shallow embedding of
    [packages/millicast-sdk-js/src/MillicastSignaling.js].

    The class owns two mutable fields, [this.webSocket] and
    [this.transactionManager], and talks to two collaborators that live
    outside the repository: the browser's [WebSocket] and medooze's
    [TransactionManager].  Both are shared mutable objects that the
    session, the handlers it installs and the environment all reach
    through references, so they are kept in stores indexed by handle and
    the session fields hold handles.

    JavaScript runs every synchronous stretch of code to completion, so
    the embedding has one transition per stretch: a method call up to its
    first suspension, the continuation of a suspended [subscribe] or
    [publish], an [onopen] or [onclose] handler, and the moves of the
    transport and of the command executor.  The environment is not
    constrained: it may change a readiness state, dispatch a notification
    or settle a command at any point, and a continuation may run at any
    point after the promise it awaits is settled.  Which urls the
    [WebSocket] constructor accepts is a parameter.  Calls of [logger]
    have no effect on the session and are left out. *)

From stdpp Require Import base list strings.

Open Scope string_scope.
Open Scope list_scope.

Module MillicastSignaling.

(** ** Values *)

(** [WebSocket.readyState]; the constants [WebSocket.CONNECTING] ...
    [WebSocket.CLOSED] are 0 ... 3. *)
Inductive ReadyState := CONNECTING | OPEN | CLOSING | CLOSED.

#[global] Instance ReadyState_eq_dec : EqDecision ReadyState.
Proof. solve_decision. Defined.

(** Values that are thrown or used to reject a promise. *)
Inductive JsError :=
| StateError (state : ReadyState)   (* the object [{ state: readyState }] built in [onopen] *)
| TypeError                         (* property access on [null] or [undefined] *)
| SyntaxError                       (* thrown by [new WebSocket(url)] on a url it refuses *)
| CommandError (reason : string).   (* whatever the command executor rejects with *)

(** State of a promise. *)
Inductive Settled (A : Type) :=
| Pending
| Resolved (value : A)
| Rejected (error : JsError).
Arguments Pending {A}.
Arguments Resolved {A} value.
Arguments Rejected {A} error.

(** How a synchronous stretch of code ends. *)
Inductive Completion (A : Type) :=
| Normal (value : A)
| Abrupt (error : JsError).
Arguments Normal {A} value.
Arguments Abrupt {A} error.

(** ** The collaborators' objects *)

(** A [WebSocket] instance.  [onopen] holds the promise whose [resolve]
    and [reject] the installed closure captured; [closeCalls] counts the
    calls of its [close()] method. *)
Record Socket := mkSocket {
  url : string;
  readyState : ReadyState;
  onopen : option nat;
  onclose : bool;
  closeCalls : nat
}.

(** A [TransactionManager] instance: the socket it was constructed on and
    the number of listeners registered for its ['event'] notification. *)
Record Manager := mkManager {
  transport : nat;
  listeners : nat
}.

(** The [data] objects built by [subscribe] and [publish]; [streamName] is
    [null] unless the options give one. *)
Inductive Payload :=
| ViewData (sdp : string) (streamId : option string)
| PublishData (name : option string) (sdp : string) (codec : string).

(** What a command resolves with: [undefined], or an object whose [sdp]
    property may be missing. *)
Inductive Reply :=
| ReplyUndefined
| ReplyObject (sdp : option string).

(** A command handed to [TransactionManager.cmd]. *)
Record Transaction := mkTransaction {
  executor : nat;
  command : string;
  data : Payload;
  outcome : Settled Reply
}.

(** An unsolicited notification of the executor. *)
Record ServerEvent := mkServerEvent {
  evt_name : string;
  evt_data : string
}.

(** ** Invocations of [subscribe] and [publish] *)

Inductive Call :=
| SubscribeCall (sdp : string)
| PublishCall (sdp : string).

Definition command_of (c : Call) : string :=
  match c with
  | SubscribeCall _ => "view"
  | PublishCall _ => "publish"
  end.

(** Where an invocation stands: suspended at [await this.connect(...)],
    suspended at [await this.transactionManager.cmd(...)], or finished. *)
Inductive Phase :=
| AwaitConnect (p : nat)
| AwaitCmd (x : nat)
| Returned (value : option string)
| Threw (error : JsError).

(** One invocation: its call, the [data] constant it built, the commands
    it has handed to an executor so far, and its phase. *)
Record Task := mkTask {
  call : Call;
  payload : Payload;
  issued : list nat;
  phase : Phase
}.

(** ** Notifications of the session *)

Inductive Notification :=
| connectionSuccess (ws tm : nat)
| connectionError (error : JsError)
| connectionClose
| event (evt : ServerEvent).

(** [emit] calls the listeners at once; an emission records what they
    find in the two fields at that moment. *)
Record Emission := mkEmission {
  notification : Notification;
  seen_webSocket : option nat;
  seen_transactionManager : option nat
}.

(** ** The session and the objects it reaches *)

Record World := mkWorld {
  webSocket : option nat;
  transactionManager : option nat;
  streamName : option string;
  wsUrl : string;
  sockets : list Socket;
  managers : list Manager;
  promises : list (Settled nat);
  transactions : list Transaction;
  tasks : list Task;
  emitted : list Emission
}.

Definition set_fields (ws tm : option nat) (w : World) : World :=
  mkWorld ws tm (streamName w) (wsUrl w) (sockets w) (managers w)
          (promises w) (transactions w) (tasks w) (emitted w).

Definition set_sockets (ss : list Socket) (w : World) : World :=
  mkWorld (webSocket w) (transactionManager w) (streamName w) (wsUrl w) ss
          (managers w) (promises w) (transactions w) (tasks w) (emitted w).

Definition set_managers (ms : list Manager) (w : World) : World :=
  mkWorld (webSocket w) (transactionManager w) (streamName w) (wsUrl w)
          (sockets w) ms (promises w) (transactions w) (tasks w) (emitted w).

Definition set_promises (ps : list (Settled nat)) (w : World) : World :=
  mkWorld (webSocket w) (transactionManager w) (streamName w) (wsUrl w)
          (sockets w) (managers w) ps (transactions w) (tasks w) (emitted w).

Definition set_transactions (xs : list Transaction) (w : World) : World :=
  mkWorld (webSocket w) (transactionManager w) (streamName w) (wsUrl w)
          (sockets w) (managers w) (promises w) xs (tasks w) (emitted w).

Definition set_tasks (ks : list Task) (w : World) : World :=
  mkWorld (webSocket w) (transactionManager w) (streamName w) (wsUrl w)
          (sockets w) (managers w) (promises w) (transactions w) ks (emitted w).

Definition set_emitted (es : list Emission) (w : World) : World :=
  mkWorld (webSocket w) (transactionManager w) (streamName w) (wsUrl w)
          (sockets w) (managers w) (promises w) (transactions w) (tasks w) es.

(** [this.emit(name, payload)]. *)
Definition emit (n : Notification) (w : World) : World :=
  set_emitted
    (emitted w ++ [mkEmission n (webSocket w) (transactionManager w)]) w.

(** [resolve(v)] and [reject(e)] of promise [p]: only the first call on a
    promise has an effect. *)
Definition settle (p : nat) (s : Settled nat) (w : World) : World :=
  match promises w !! p with
  | Some Pending => set_promises (<[p := s]> (promises w)) w
  | _ => w
  end.

Definition resolve (p : nat) (v : nat) : World -> World := settle p (Resolved v).
Definition reject (p : nat) (e : JsError) : World -> World := settle p (Rejected e).

(** [ws.readyState] of the socket behind handle [ws]. *)
Definition readyStateOf (ws : nat) (w : World) : option ReadyState :=
  readyState <$> sockets w !! ws.

(** ** Constructor *)

Record Options := mkOptions {
  opt_streamName : option string;
  opt_url : string
}.

Definition default_options : Options :=
  mkOptions None "ws://localhost:8080/".

Definition construct (options : Options) : World :=
  mkWorld None None (opt_streamName options) (opt_url options)
          [] [] [] [] [] [].

(** ** The transport *)

(** The one thing the session needs to know of the [WebSocket]
    constructor: whether [new WebSocket(url)] returns a socket or throws
    because it refuses the url (one that does not parse, has another
    scheme than the transport's, or carries a fragment).  Which urls are
    accepted is the browser's business, so it is a parameter of the
    session. *)
Class Transport := {
  accepts : string -> bool
}.

Section Session.

Context `{Socket_constructor : Transport}.

(** ** connect *)

(** The guard [this.transactionManager &&
    this.webSocket?.readyState === WebSocket.OPEN]. *)
Definition connected (w : World) : option (nat * nat) :=
  match transactionManager w, webSocket w with
  | Some tm, Some ws =>
      if bool_decide (readyStateOf ws w = Some OPEN) then Some (ws, tm) else None
  | _, _ => None
  end.

(** [connect(url)] up to its [return]: the result is the promise handed to
    the caller.  On the first branch that promise is already resolved with
    [this.webSocket]; on the second the executor of [new Promise] has run,
    statement by statement: [new WebSocket(url)] yields a socket in
    readiness state [CONNECTING], a [TransactionManager] is constructed on
    it, and the two handlers are installed on the new socket.  When
    [new WebSocket(url)] throws, the executor is left before anything is
    assigned and the promise is rejected with the exception.  The
    constructor of [TransactionManager] is taken to return an object. *)
Definition connect (u : string) (w : World) : nat * World :=
  let p := length (promises w) in
  match connected w with
  | Some (ws, tm) =>
      let w1 := emit (connectionSuccess ws tm) w in
      (p, set_promises (promises w1 ++ [Resolved ws]) w1)
  | None =>
      if accepts u then
        let ws := length (sockets w) in
        let tm := length (managers w) in
        let w1 := set_promises (promises w ++ [Pending]) w in
        let w2 := set_sockets (sockets w1 ++ [mkSocket u CONNECTING None false 0]) w1 in
        let w3 := set_fields (Some ws) (transactionManager w2) w2 in
        let w4 := set_managers (managers w3 ++ [mkManager ws 0]) w3 in
        let w5 := set_fields (webSocket w4) (Some tm) w4 in
        (p, set_sockets (<[ws := mkSocket u CONNECTING (Some p) true 0]> (sockets w5)) w5)
      else
        (p, set_promises (promises w ++ [Rejected SyntaxError]) w)
  end.

(** [this.transactionManager.on('event', ...)] on manager [tm]. *)
Definition add_listener (tm : nat) (w : World) : World :=
  set_managers
    (alter (fun m => mkManager (transport m) (S (listeners m))) tm (managers w)) w.

(** The closure installed as [onopen]; [p] is the promise whose [resolve]
    and [reject] it captured.  It reads [this.webSocket] and
    [this.transactionManager] when it runs, which need not be the socket
    the notification is for.  There is no [return] after [reject(error)].
    Reading a property of [null] throws; the exception leaves the handler
    at once and nothing in the session catches it.  (A handle without a
    socket behind it is treated alike; see [wf_run] for why none
    arises.) *)
Definition onopen_handler (p : nat) (w : World) : Completion unit * World :=
  match webSocket w with
  | None => (Abrupt TypeError, w)
  | Some ws =>
      match readyStateOf ws w with
      | None => (Abrupt TypeError, w)
      | Some rs =>
          let w1 :=
            if bool_decide (rs = OPEN) then w
            else
              let error := StateError rs in
              reject p error (emit (connectionError error) w) in
          match transactionManager w1 with
          | None => (Abrupt TypeError, w1)
          | Some tm =>
              let w2 := add_listener tm w1 in
              let w3 := emit (connectionSuccess ws tm) w2 in
              (Normal tt, resolve p ws w3)
          end
      end
  end.

(** The closure installed as [onclose]. *)
Definition onclose_handler (w : World) : Completion unit * World :=
  let w1 := set_fields None (transactionManager w) w in
  let w2 := set_fields (webSocket w1) None w1 in
  (Normal tt, emit connectionClose w2).

(** ** close *)

(** [WebSocket.close()] without arguments: a socket that is connecting or
    open starts its closing handshake, any other is left as it is. *)
Definition socket_close (s : Socket) : Socket :=
  mkSocket (url s)
           (match readyState s with
            | CONNECTING | OPEN => CLOSING
            | rs => rs
            end)
           (onopen s) (onclose s) (S (closeCalls s)).

Definition close (w : World) : Completion unit * World :=
  match webSocket w with
  | Some ws => (Normal tt, set_sockets (alter socket_close ws (sockets w)) w)
  | None => (Normal tt, w)
  end.

(** ** subscribe and publish *)

(** The guard [!this.webSocket ||
    this.webSocket.readyState !== WebSocket.OPEN]. *)
Definition needs_connect (w : World) : bool :=
  match webSocket w with
  | None => true
  | Some ws => negb (bool_decide (readyStateOf ws w = Some OPEN))
  end.

(** [this.transactionManager.cmd(name, data)] followed by [await]: the
    command is handed to the executor the field holds now and the
    invocation is suspended on it.  With the field [null] the call throws
    inside [try]; the [catch] clause logs and throws the same value. *)
Definition send_command (c : Call) (d : Payload) (sent : list nat)
    (w : World) : Task * World :=
  match transactionManager w with
  | None => (mkTask c d sent (Threw TypeError), w)
  | Some tm =>
      let x := length (transactions w) in
      (mkTask c d (sent ++ [x]) (AwaitCmd x),
       set_transactions
         (transactions w ++ [mkTransaction tm (command_of c) d Pending]) w)
  end.

(** The body shared by [subscribe] and [publish], up to the first
    suspension.  The result is the promise handed to the caller. *)
Definition invoke (c : Call) (d : Payload) (w : World) : nat * World :=
  let t := length (tasks w) in
  if needs_connect w then
    let '(p, w1) := connect (wsUrl w) w in
    (t, set_tasks (tasks w1 ++ [mkTask c d [] (AwaitConnect p)]) w1)
  else
    let '(k, w1) := send_command c d [] w in
    (t, set_tasks (tasks w1 ++ [k]) w1).

Definition subscribe (sdp : string) (w : World) : nat * World :=
  let d := ViewData sdp (streamName w) in
  invoke (SubscribeCall sdp) d w.

Definition publish (sdp : string) (w : World) : nat * World :=
  let d := PublishData (streamName w) sdp "h264" in
  invoke (PublishCall sdp) d w.

(** [result.sdp]. *)
Definition sdp_of (result : Reply) : Completion (option string) :=
  match result with
  | ReplyUndefined => Abrupt TypeError
  | ReplyObject s => Normal s
  end.

Definition finish (k : Task) (ph : Phase) : Task :=
  mkTask (call k) (payload k) (issued k) ph.

(** The continuation of invocation [t].  It has an effect once the
    promise the invocation awaits is settled: a rejection is thrown at the
    [await], caught, logged and thrown again; after [connect] resolved the
    body goes on to send its command; after the command resolved it
    returns [result.sdp]. *)
Definition resume (t : nat) (w : World) : World :=
  match tasks w !! t with
  | None => w
  | Some k =>
      match phase k with
      | AwaitConnect p =>
          match promises w !! p with
          | Some (Resolved _) =>
              let '(k', w1) := send_command (call k) (payload k) (issued k) w in
              set_tasks (<[t := k']> (tasks w1)) w1
          | Some (Rejected e) =>
              set_tasks (<[t := finish k (Threw e)]> (tasks w)) w
          | _ => w
          end
      | AwaitCmd x =>
          match outcome <$> transactions w !! x with
          | Some (Resolved result) =>
              match sdp_of result with
              | Normal s => set_tasks (<[t := finish k (Returned s)]> (tasks w)) w
              | Abrupt e => set_tasks (<[t := finish k (Threw e)]> (tasks w)) w
              end
          | Some (Rejected e) =>
              set_tasks (<[t := finish k (Threw e)]> (tasks w)) w
          | _ => w
          end
      | Returned _ | Threw _ => w
      end
  end.

(** ** The environment *)

(** The transport changes the readiness state of socket [ws]. *)
Definition transport_state (ws : nat) (rs : ReadyState) (w : World) : World :=
  set_sockets
    (alter (fun s => mkSocket (url s) rs (onopen s) (onclose s) (closeCalls s))
           ws (sockets w)) w.

(** The transport dispatches [open] on socket [ws]. *)
Definition transport_open (ws : nat) (w : World) : World :=
  match sockets w !! ws with
  | Some s =>
      match onopen s with
      | Some p => snd (onopen_handler p w)
      | None => w
      end
  | None => w
  end.

(** The transport dispatches [close] on socket [ws]. *)
Definition transport_close (ws : nat) (w : World) : World :=
  match sockets w !! ws with
  | Some s => if onclose s then snd (onclose_handler w) else w
  | None => w
  end.

(** The executor settles command [x]. *)
Definition executor_settle (x : nat) (o : Settled Reply) (w : World) : World :=
  match transactions w !! x with
  | Some (mkTransaction tm c d Pending) =>
      set_transactions (<[x := mkTransaction tm c d o]> (transactions w)) w
  | _ => w
  end.

(** Manager [tm] emits ['event']: every listener the session registered
    on it re-emits the event. *)
Definition executor_event (tm : nat) (evt : ServerEvent) (w : World) : World :=
  match managers w !! tm with
  | Some m => Nat.iter (listeners m) (emit (event evt)) w
  | None => w
  end.

(** ** Runs *)

Inductive Action :=
| Connect (u : string)
| Close
| Subscribe (sdp : string)
| Publish (sdp : string)
| Resume (t : nat)
| TransportState (ws : nat) (rs : ReadyState)
| TransportOpen (ws : nat)
| TransportClose (ws : nat)
| ExecutorSettle (x : nat) (o : Settled Reply)
| ExecutorEvent (tm : nat) (evt : ServerEvent).

Definition step (w : World) (a : Action) : World :=
  match a with
  | Connect u => snd (connect u w)
  | Close => snd (close w)
  | Subscribe sdp => snd (subscribe sdp w)
  | Publish sdp => snd (publish sdp w)
  | Resume t => resume t w
  | TransportState ws rs => transport_state ws rs w
  | TransportOpen ws => transport_open ws w
  | TransportClose ws => transport_close ws w
  | ExecutorSettle x o => executor_settle x o w
  | ExecutorEvent tm evt => executor_event tm evt w
  end.

Definition run (w : World) (acts : list Action) : World :=
  fold_left step acts w.

End Session.

End MillicastSignaling.

Import MillicastSignaling.

(** * Vocabulary of the properties *)

(** ** Invariants of the two fields *)

Definition paired (ws tm : option nat) : Prop := is_Some ws <-> is_Some tm.

(** The fields agree now, and agreed whenever a listener was called. *)
Definition consistent (w : World) : Prop :=
  paired (webSocket w) (transactionManager w) /\
  Forall (fun e => paired (seen_webSocket e) (seen_transactionManager e))
         (emitted w).

(** ** Handles and handlers *)

(** Every socket carries the two handlers [connect] installed, its
    [onopen] closure holds an existing promise, and the two fields hold
    handles of existing objects. *)
Definition handlers_installed (promised : nat) (s : Socket) : Prop :=
  onclose s = true /\ exists p, onopen s = Some p /\ p < promised.

Record wf (w : World) : Prop := mkWf {
  wf_webSocket : forall ws, webSocket w = Some ws -> ws < length (sockets w);
  wf_transactionManager :
    forall tm, transactionManager w = Some tm -> tm < length (managers w);
  wf_sockets : Forall (handlers_installed (length (promises w))) (sockets w)
}.

(** Sockets are never dropped and their handlers are never replaced. *)
Definition same_handlers (s s' : Socket) : Prop :=
  url s' = url s /\ onopen s' = onopen s /\ onclose s' = onclose s.

(** ** What later actions keep of a world *)

(** A command keeps its executor, name and payload, and once settled its
    outcome. *)
Definition tx_kept (tx tx' : Transaction) : Prop :=
  executor tx' = executor tx /\ command tx' = command tx /\
  data tx' = data tx /\ (outcome tx <> Pending -> outcome tx' = outcome tx).

Definition extends (w w' : World) : Prop :=
  streamName w' = streamName w /\
  wsUrl w' = wsUrl w /\
  length (managers w) <= length (managers w') /\
  forall x tx, transactions w !! x = Some tx ->
    exists tx', transactions w' !! x = Some tx' /\ tx_kept tx tx'.

(** ** What an invocation has done, by phase *)

(** The [data] object of a call on a session named [name]. *)
Definition data_of (c : Call) (name : option string) : Payload :=
  match c with
  | SubscribeCall sdp => ViewData sdp name
  | PublishCall sdp => PublishData name sdp "h264"
  end.

(** An invocation suspended on [connect] has sent nothing.  One suspended
    on its command has sent that command and no other, under the name of
    its call and with its [data], to an existing executor.  One that
    returned has sent one command, which resolved with an object whose
    [sdp] is the value returned. *)
Definition task_ok (w : World) (k : Task) : Prop :=
  payload k = data_of (call k) (streamName w) /\
  match phase k with
  | AwaitConnect p => issued k = []
  | AwaitCmd x =>
      issued k = [x] /\
      exists tm o,
        transactions w !! x =
          Some (mkTransaction tm (command_of (call k)) (payload k) o) /\
        tm < length (managers w)
  | Returned v =>
      exists x tm,
        issued k = [x] /\
        transactions w !! x =
          Some (mkTransaction tm (command_of (call k)) (payload k)
                              (Resolved (ReplyObject v))) /\
        tm < length (managers w)
  | Threw _ => length (issued k) <= 1
  end.

Definition tasks_ok (w : World) : Prop := Forall (task_ok w) (tasks w).

(** Every command an executor received is in the log of one
    invocation. *)
Definition commands_logged (w : World) : Prop :=
  length (transactions w) =
  sum_list_with (fun k => length (issued k)) (tasks w).

(** An invocation that returned or threw. *)
Definition finished (k : Task) : Prop :=
  match phase k with
  | Returned _ | Threw _ => True
  | AwaitConnect _ | AwaitCmd _ => False
  end.

(** ** Scenarios *)

(** A transport for the scenarios: it accepts the urls of scheme [ws] or
    [wss] that carry no fragment. *)
Definition has_fragment (u : string) : bool :=
  match String.index 0 "#" u with
  | Some _ => true
  | None => false
  end.

Definition ws_scheme (u : string) : bool :=
  String.prefix "ws://" u || String.prefix "wss://" u.

Definition browser : Transport :=
  {| accepts := fun u => ws_scheme u && negb (has_fragment u) |}.

Section Scenarios.

#[local] Existing Instance browser.

(** The options of the specification's scenarios. *)
Definition cam1 : Options := mkOptions (Some "cam1") "ws://host/ws".

(** A session that connected and whose socket just became [OPEN]. *)
Definition opening : World :=
  run (construct cam1) [Connect "ws://host/ws"; TransportState 0 OPEN].

(** A session that connected and whose socket opened. *)
Definition opened : World :=
  run (construct cam1)
      [Connect "ws://host/ws"; TransportState 0 OPEN; TransportOpen 0].

(** The transport reports [open] while the socket is [CLOSING]. *)
Definition closing_at_open : World :=
  run (construct cam1) [Connect "ws://host/ws"; TransportState 0 CLOSING].

(** A session right after its first [connect]. *)
Definition connecting : World := snd (connect "ws://host/ws" (construct cam1)).

(** [subscribe] and [publish] on a fresh session, run to their end. *)
Definition subscribed : World :=
  run (construct cam1)
      [Subscribe "offer-sdp-1"; TransportState 0 OPEN; TransportOpen 0; Resume 0;
       ExecutorSettle 0 (Resolved (ReplyObject (Some "answer-sdp-1"))); Resume 0].

Definition published : World :=
  run (construct cam1)
      [Publish "offer-sdp-2"; TransportState 0 OPEN; TransportOpen 0; Resume 0;
       ExecutorSettle 0 (Resolved (ReplyObject (Some "answer-sdp-2"))); Resume 0].

(** [subscribe] on a fresh session whose socket is reported open while
    [CLOSING]. *)
Definition refused : World :=
  run (construct cam1)
      [Subscribe "offer-sdp-1"; TransportState 0 CLOSING; TransportOpen 0].

End Scenarios.

(** ** Further vocabulary *)

(** Executors and sockets are constructed in pairs, and the two fields
    hold the members of one pair. *)
Definition bound (w : World) : Prop :=
  length (managers w) = length (sockets w) /\
  (forall i m, managers w !! i = Some m -> transport m = i) /\
  transactionManager w = webSocket w.

(** The two commands the session sends, for a session named [name]. *)
Definition session_command (name : option string) (tx : Transaction) : Prop :=
  (command tx = "view" /\ exists sdp, data tx = ViewData sdp name) \/
  (command tx = "publish" /\ exists sdp, data tx = PublishData name sdp "h264").

(** What the listeners of each notification find in the two fields. *)
Definition emission_ok (e : Emission) : Prop :=
  match notification e with
  | connectionSuccess ws tm =>
      seen_webSocket e = Some ws /\ seen_transactionManager e = Some tm
  | connectionError err =>
      is_Some (seen_webSocket e) /\
      exists rs, err = StateError rs /\ rs <> OPEN
  | connectionClose =>
      seen_webSocket e = None /\ seen_transactionManager e = None
  | event _ => True
  end.

(** The action that calls [subscribe] or [publish]. *)
Definition call_action (c : Call) : Action :=
  match c with
  | SubscribeCall sdp => Subscribe sdp
  | PublishCall sdp => Publish sdp
  end.

Definition is_call (a : Action) : bool :=
  match a with
  | Subscribe _ | Publish _ => true
  | _ => false
  end.

(** The actions whose code contains [new WebSocket]. *)
Definition may_open (a : Action) : bool :=
  match a with
  | Connect _ | Subscribe _ | Publish _ => true
  | _ => false
  end.

(** * Properties *)

Create HintDb session.
Create Rewrite HintDb frame.

Section Properties.

Context `{Socket_constructor : Transport}.

(** ** The two branches of [connect] in closed form *)

Lemma connect_fast (u : string) (w : World) (ws tm : nat) :
  connected w = Some (ws, tm) ->
  connect u w =
    (length (promises w),
     mkWorld (webSocket w) (transactionManager w) (streamName w) (wsUrl w)
       (sockets w) (managers w) (promises w ++ [Resolved ws])
       (transactions w) (tasks w)
       (emitted w ++ [mkEmission (connectionSuccess ws tm)
                                 (webSocket w) (transactionManager w)])).
Proof. intros H. unfold connect. rewrite H. reflexivity. Qed.

Lemma connect_slow (u : string) (w : World) :
  connected w = None ->
  accepts u = true ->
  connect u w =
    (length (promises w),
     mkWorld (Some (length (sockets w))) (Some (length (managers w)))
       (streamName w) (wsUrl w)
       (sockets w ++ [mkSocket u CONNECTING (Some (length (promises w))) true 0])
       (managers w ++ [mkManager (length (sockets w)) 0])
       (promises w ++ [Pending])
       (transactions w) (tasks w) (emitted w)).
Proof.
  intros Hcon Hacc. unfold connect. rewrite Hcon, Hacc. cbn.
  rewrite insert_app_r_alt by lia. rewrite Nat.sub_diag. reflexivity.
Qed.

Lemma connect_refused (u : string) (w : World) :
  connected w = None ->
  accepts u = false ->
  connect u w =
    (length (promises w),
     mkWorld (webSocket w) (transactionManager w) (streamName w) (wsUrl w)
       (sockets w) (managers w) (promises w ++ [Rejected SyntaxError])
       (transactions w) (tasks w) (emitted w)).
Proof. intros Hcon Hacc. unfold connect. rewrite Hcon, Hacc. reflexivity. Qed.

Lemma connected_Some (w : World) (ws tm : nat) :
  connected w = Some (ws, tm) <->
  transactionManager w = Some tm /\ webSocket w = Some ws /\
  readyStateOf ws w = Some OPEN.
Proof.
  unfold connected.
  destruct (transactionManager w) as [tm'|], (webSocket w) as [ws'|];
    try (split; [discriminate | intros (? & ? & ?); discriminate]).
  case_bool_decide as Hrs.
  - split.
    + intros [= -> ->]. auto.
    + intros ([= ->] & [= ->] & _). reflexivity.
  - split; [discriminate |].
    intros ([= ->] & [= ->] & Hopen). contradiction.
Qed.

Lemma connected_None (w : World) :
  connected w = None <->
  transactionManager w = None \/ webSocket w = None \/
  exists ws, webSocket w = Some ws /\ readyStateOf ws w <> Some OPEN.
Proof.
  unfold connected.
  destruct (transactionManager w) as [tm|]; [| tauto].
  destruct (webSocket w) as [ws|]; [| tauto].
  case_bool_decide as Hrs.
  - split; [discriminate |].
    intros [? | [? | (ws' & [= <-] & Hne)]]; try discriminate. contradiction.
  - split; [| reflexivity]. intros _. right. right. eauto.
Qed.

Lemma needs_connect_true (w : World) :
  needs_connect w = true <->
  webSocket w = None \/
  exists ws, webSocket w = Some ws /\ readyStateOf ws w <> Some OPEN.
Proof.
  unfold needs_connect. destruct (webSocket w) as [ws|].
  - rewrite negb_true_iff, bool_decide_eq_false. split.
    + intros Hne. right. eauto.
    + intros [? | (ws' & [= <-] & Hne)]; [discriminate | exact Hne].
  - tauto.
Qed.

Lemma needs_connect_connected (w : World) :
  needs_connect w = true -> connected w = None.
Proof.
  rewrite needs_connect_true, connected_None. tauto.
Qed.

(** ** The two fields are set and cleared together *)

Lemma paired_None : paired None None.
Proof. unfold paired. split; intros [? [=]]. Qed.

Lemma paired_Some (ws tm : nat) : paired (Some ws) (Some tm).
Proof. unfold paired. split; eauto. Qed.

#[local] Hint Resolve paired_None paired_Some : session.

Lemma settle_frame (p : nat) (s : Settled nat) (w : World) :
  webSocket (settle p s w) = webSocket w /\
  transactionManager (settle p s w) = transactionManager w /\
  streamName (settle p s w) = streamName w /\
  wsUrl (settle p s w) = wsUrl w /\
  sockets (settle p s w) = sockets w /\
  managers (settle p s w) = managers w /\
  transactions (settle p s w) = transactions w /\
  tasks (settle p s w) = tasks w /\
  emitted (settle p s w) = emitted w.
Proof. unfold settle. repeat case_match; cbn; auto 10. Qed.

Lemma settle_webSocket p s w : webSocket (settle p s w) = webSocket w.
Proof. apply settle_frame. Qed.
Lemma settle_transactionManager p s w :
  transactionManager (settle p s w) = transactionManager w.
Proof. apply settle_frame. Qed.
Lemma settle_streamName p s w : streamName (settle p s w) = streamName w.
Proof. apply settle_frame. Qed.
Lemma settle_wsUrl p s w : wsUrl (settle p s w) = wsUrl w.
Proof. apply settle_frame. Qed.
Lemma settle_sockets p s w : sockets (settle p s w) = sockets w.
Proof. apply settle_frame. Qed.
Lemma settle_managers p s w : managers (settle p s w) = managers w.
Proof. apply settle_frame. Qed.
Lemma settle_transactions p s w : transactions (settle p s w) = transactions w.
Proof. apply settle_frame. Qed.
Lemma settle_tasks p s w : tasks (settle p s w) = tasks w.
Proof. apply settle_frame. Qed.
Lemma settle_emitted p s w : emitted (settle p s w) = emitted w.
Proof. apply settle_frame. Qed.

#[local] Hint Rewrite settle_webSocket settle_transactionManager
  settle_streamName settle_wsUrl settle_sockets settle_managers settle_transactions
  settle_tasks settle_emitted : frame.

(** Reduce the projections of a world built by the session's
    operations. *)
Ltac frame := repeat (progress (autorewrite with frame; cbn)).

Lemma iter_emit (n : nat) (x : Notification) (w : World) :
  Nat.iter n (emit x) w =
  set_emitted
    (emitted w ++
       replicate n (mkEmission x (webSocket w) (transactionManager w))) w.
Proof.
  induction n as [|n IH].
  - cbn. rewrite app_nil_r. destruct w; reflexivity.
  - rewrite Nat.iter_succ, IH, replicate_S_end, app_assoc. reflexivity.
Qed.

Lemma Forall_snoc {A : Type} (P : A -> Prop) (l : list A) (x : A) :
  Forall P l -> P x -> Forall P (l ++ [x]).
Proof. intros Hl Hx. apply Forall_app. split; [exact Hl |]. constructor; auto. Qed.

Lemma consistent_emit (x : Notification) (w : World) :
  consistent w -> consistent (emit x w).
Proof.
  intros [Hf He]. split; [exact Hf |].
  cbn. apply Forall_snoc; assumption.
Qed.

Lemma consistent_same (w w' : World) :
  webSocket w' = webSocket w ->
  transactionManager w' = transactionManager w ->
  emitted w' = emitted w ->
  consistent w -> consistent w'.
Proof. unfold consistent. intros -> -> ->. auto. Qed.

Lemma consistent_settle (p : nat) (s : Settled nat) (w : World) :
  consistent w -> consistent (settle p s w).
Proof.
  destruct (settle_frame p s w) as (? & ? & _ & _ & _ & _ & _ & _ & ?).
  apply consistent_same; assumption.
Qed.

Lemma connect_consistent (u : string) (w : World) :
  consistent w -> consistent (snd (connect u w)).
Proof.
  intros Hc. destruct (connected w) as [[ws tm]|] eqn:Hcon.
  - rewrite (connect_fast u w ws tm Hcon). cbn.
    destruct Hc as [Hf He]. split; [exact Hf |]. cbn.
    apply Forall_snoc; assumption.
  - destruct (accepts u) eqn:Hacc;
      [| rewrite (connect_refused u w Hcon Hacc); exact Hc].
    rewrite (connect_slow u w Hcon Hacc). destruct Hc as [_ He].
    split; cbn; auto with session.
Qed.

Lemma onopen_handler_consistent (p : nat) (w : World) :
  consistent w -> consistent (snd (onopen_handler p w)).
Proof.
  intros Hc. unfold onopen_handler, reject, resolve.
  repeat case_match; cbn [snd]; simplify_eq;
    repeat first
      [ assumption
      | apply consistent_settle
      | apply consistent_emit
      | (eapply consistent_same; [| | | eassumption]; reflexivity) ].
  all: unfold add_listener;
    (eapply consistent_same; [| | | apply consistent_settle, consistent_emit; eassumption]);
    reflexivity.
Qed.

Lemma onclose_handler_consistent (w : World) :
  consistent w -> consistent (snd (onclose_handler w)).
Proof.
  intros [_ He]. split; cbn; auto with session.
  apply Forall_snoc; cbn; auto with session.
Qed.

Lemma invoke_consistent (c : Call) (d : Payload) (w : World) :
  consistent w -> consistent (snd (invoke c d w)).
Proof.
  intros Hc. unfold invoke. destruct (needs_connect w).
  - pose proof (connect_consistent (wsUrl w) w Hc) as H.
    destruct (connect (wsUrl w) w) as [p w1]. cbn in *.
    eapply consistent_same; [| | | exact H]; reflexivity.
  - unfold send_command. destruct (transactionManager w); cbn;
      (eapply consistent_same; [| | | exact Hc]; reflexivity).
Qed.

Lemma resume_consistent (t : nat) (w : World) :
  consistent w -> consistent (resume t w).
Proof.
  intros Hc. unfold resume, send_command.
  repeat case_match; simplify_eq; try assumption;
    (eapply consistent_same; [| | | exact Hc]; reflexivity).
Qed.

Lemma step_consistent (w : World) (a : Action) :
  consistent w -> consistent (step w a).
Proof.
  intros Hc. destruct a; cbn [step].
  - apply connect_consistent, Hc.
  - unfold close. destruct (webSocket w) eqn:E; cbn [snd]; [| exact Hc].
    eapply consistent_same; [| | | exact Hc]; cbn; congruence.
  - apply invoke_consistent, Hc.
  - apply invoke_consistent, Hc.
  - apply resume_consistent, Hc.
  - eapply consistent_same; [| | | exact Hc]; reflexivity.
  - unfold transport_open. repeat case_match; try exact Hc.
    apply onopen_handler_consistent, Hc.
  - unfold transport_close. repeat case_match; try exact Hc.
    apply onclose_handler_consistent, Hc.
  - unfold executor_settle. repeat case_match; exact Hc.
  - unfold executor_event. destruct (managers w !! tm); [| exact Hc].
    rewrite iter_emit. destruct Hc as [Hf He]. split; [exact Hf |]. cbn.
    apply Forall_app. split; [exact He |].
    apply Forall_replicate. exact Hf.
Qed.

Lemma run_consistent (w : World) (acts : list Action) :
  consistent w -> consistent (run w acts).
Proof.
  revert w. induction acts as [|a acts IH]; intros w Hc; [exact Hc |].
  cbn. apply IH, step_consistent, Hc.
Qed.

(** C4.  After construction and after every action that follows (the
    session's methods, the continuations of [subscribe] and [publish],
    the handlers run by the transport, the executor's moves), [webSocket]
    is non-null exactly when [transactionManager] is; the same held at
    each call of a listener. *)
Theorem fields_paired (options : Options) (acts : list Action) :
  let w := run (construct options) acts in
  (is_Some (webSocket w) <-> is_Some (transactionManager w)) /\
  Forall (fun e =>
            is_Some (seen_webSocket e) <-> is_Some (seen_transactionManager e))
         (emitted w).
Proof.
  apply (run_consistent (construct options) acts).
  split; cbn; auto with session.
Qed.

(** ** Handles and handlers in worlds a session can reach *)

Lemma handlers_installed_mono (n m : nat) (s : Socket) :
  n <= m -> handlers_installed n s -> handlers_installed m s.
Proof. intros Hle [Hc (p & Ho & Hp)]. split; [exact Hc |]. exists p. split; [exact Ho | lia]. Qed.

Lemma wf_same (w w' : World) :
  webSocket w' = webSocket w ->
  transactionManager w' = transactionManager w ->
  sockets w' = sockets w ->
  length (managers w') = length (managers w) ->
  length (promises w') = length (promises w) ->
  wf w -> wf w'.
Proof.
  intros Hws Htm Hs Hm Hp [H1 H2 H3].
  split; rewrite ?Hws, ?Htm, ?Hs, ?Hm, ?Hp; assumption.
Qed.

Lemma wf_settle (p : nat) (s : Settled nat) (w : World) :
  wf w -> wf (settle p s w).
Proof.
  unfold settle. repeat case_match; try (intros; assumption).
  apply wf_same; cbn; try reflexivity. apply length_insert.
Qed.

Lemma wf_emit (x : Notification) (w : World) : wf w -> wf (emit x w).
Proof. apply wf_same; reflexivity. Qed.

Lemma wf_add_listener (tm : nat) (w : World) : wf w -> wf (add_listener tm w).
Proof. apply wf_same; cbn; try reflexivity. apply length_alter. Qed.

Lemma wf_alter_socket (f : Socket -> Socket) (ws : nat) (w : World) :
  (forall s, onopen (f s) = onopen s /\ onclose (f s) = onclose s) ->
  wf w -> wf (set_sockets (alter f ws (sockets w)) w).
Proof.
  intros Hf [H1 H2 H3]. split; cbn.
  - intros ws' Hws. rewrite length_alter. auto.
  - exact H2.
  - apply Forall_alter; [exact H3 |].
    intros s _ [Hc (p & Ho & Hp)]. destruct (Hf s) as [Ho' Hc'].
    split; [congruence |]. exists p. split; [congruence | exact Hp].
Qed.

Lemma wf_connect (u : string) (w : World) : wf w -> wf (snd (connect u w)).
Proof.
  intros Hw. destruct (connected w) as [[ws tm]|] eqn:Hcon.
  - rewrite (connect_fast u w ws tm Hcon). destruct Hw as [H1 H2 H3].
    split; cbn; try assumption.
    eapply Forall_impl; [exact H3 |]. intros s.
    apply handlers_installed_mono. rewrite length_app. lia.
  - destruct (accepts u) eqn:Hacc;
      [| rewrite (connect_refused u w Hcon Hacc); destruct Hw as [H1 H2 H3];
         split; cbn; try assumption;
         eapply Forall_impl; [exact H3 |]; intros s;
         apply handlers_installed_mono; rewrite length_app; lia].
    rewrite (connect_slow u w Hcon Hacc). destruct Hw as [H1 H2 H3].
    split; cbn.
    + intros ws [= <-]. rewrite length_app. cbn. lia.
    + intros tm [= <-]. rewrite length_app. cbn. lia.
    + rewrite length_app. cbn. apply Forall_snoc.
      * eapply Forall_impl; [exact H3 |]. intros s.
        apply handlers_installed_mono. lia.
      * split; [reflexivity |]. eexists. split; [reflexivity |]. cbn. lia.
Qed.

Lemma wf_onopen_handler (p : nat) (w : World) :
  wf w -> wf (snd (onopen_handler p w)).
Proof.
  intros Hw. unfold onopen_handler, reject, resolve.
  repeat case_match; cbn [snd]; simplify_eq;
    repeat first
      [ assumption | apply wf_settle | apply wf_emit | apply wf_add_listener ].
Qed.

Lemma wf_onclose_handler (w : World) : wf w -> wf (snd (onclose_handler w)).
Proof.
  intros [H1 H2 H3]. split; cbn; try discriminate. exact H3.
Qed.

Lemma wf_invoke (c : Call) (d : Payload) (w : World) :
  wf w -> wf (snd (invoke c d w)).
Proof.
  intros Hw. unfold invoke. destruct (needs_connect w).
  - pose proof (wf_connect (wsUrl w) w Hw) as H.
    destruct (connect (wsUrl w) w) as [p w1]. cbn in *.
    eapply wf_same; [| | | | | exact H]; reflexivity.
  - unfold send_command. destruct (transactionManager w); cbn;
      (eapply wf_same; [| | | | | exact Hw]; reflexivity).
Qed.

Lemma wf_resume (t : nat) (w : World) : wf w -> wf (resume t w).
Proof.
  intros Hw. unfold resume, send_command.
  repeat case_match; simplify_eq; try assumption;
    (eapply wf_same; [| | | | | exact Hw]; reflexivity).
Qed.

Lemma wf_step (w : World) (a : Action) : wf w -> wf (step w a).
Proof.
  intros Hw. destruct a; cbn [step].
  - apply wf_connect, Hw.
  - unfold close. destruct (webSocket w); cbn [snd]; [| exact Hw].
    apply wf_alter_socket; [| exact Hw]. intros s. split; reflexivity.
  - apply wf_invoke, Hw.
  - apply wf_invoke, Hw.
  - apply wf_resume, Hw.
  - apply wf_alter_socket; [| exact Hw]. intros s. split; reflexivity.
  - unfold transport_open. repeat case_match; try exact Hw.
    apply wf_onopen_handler, Hw.
  - unfold transport_close. repeat case_match; try exact Hw.
    apply wf_onclose_handler, Hw.
  - unfold executor_settle. repeat case_match; try exact Hw.
    eapply wf_same; [| | | | | exact Hw]; reflexivity.
  - unfold executor_event. destruct (managers w !! tm); [| exact Hw].
    rewrite iter_emit. eapply wf_same; [| | | | | exact Hw]; reflexivity.
Qed.

Lemma wf_construct (options : Options) : wf (construct options).
Proof. split; cbn; try discriminate. constructor. Qed.

Lemma wf_run (w : World) (acts : list Action) : wf w -> wf (run w acts).
Proof.
  revert w. induction acts as [|a acts IH]; intros w Hw; [exact Hw |].
  cbn. apply IH, wf_step, Hw.
Qed.

Lemma alter_socket_kept (f : Socket -> Socket) (i ws : nat) (l : list Socket)
    (s : Socket) :
  (forall s0, same_handlers s0 (f s0)) ->
  l !! ws = Some s ->
  exists s', alter f i l !! ws = Some s' /\ same_handlers s s'.
Proof.
  intros Hf Hs. destruct (decide (i = ws)) as [->|Hne].
  - rewrite list_lookup_alter_eq, Hs. cbn. eauto.
  - rewrite list_lookup_alter_ne by assumption. exists s.
    split; [exact Hs |]. repeat split.
Qed.

Lemma connect_sockets (u : string) (w : World) :
  sockets (snd (connect u w)) = sockets w \/
  sockets (snd (connect u w)) =
    sockets w ++ [mkSocket u CONNECTING (Some (length (promises w))) true 0].
Proof.
  destruct (connected w) as [[ws tm]|] eqn:Hcon.
  - rewrite (connect_fast u w ws tm Hcon). left. reflexivity.
  - destruct (accepts u) eqn:Hacc;
      [| rewrite (connect_refused u w Hcon Hacc); left; reflexivity].
    rewrite (connect_slow u w Hcon Hacc). right. reflexivity.
Qed.

Lemma step_socket_kept (w : World) (a : Action) (ws : nat) (s : Socket) :
  sockets w !! ws = Some s ->
  exists s', sockets (step w a) !! ws = Some s' /\ same_handlers s s'.
Proof.
  intros Hs.
  assert (Hsame : forall w', sockets w' = sockets w ->
            exists s', sockets w' !! ws = Some s' /\ same_handlers s s').
  { intros w' ->. exists s. split; [exact Hs |]. repeat split. }
  assert (Hconn : forall u w', sockets w' = sockets (snd (connect u w)) ->
            exists s', sockets w' !! ws = Some s' /\ same_handlers s s').
  { intros u w' ->. destruct (connect_sockets u w) as [-> | ->].
    - apply Hsame. reflexivity.
    - exists s. split; [| repeat split]. apply lookup_app_l_Some, Hs. }
  destruct a; cbn [step].
  - eapply Hconn. reflexivity.
  - unfold close. destruct (webSocket w); cbn [snd]; [| apply Hsame; reflexivity].
    cbn. apply alter_socket_kept; [| exact Hs]. intros s0. repeat split.
  - unfold subscribe, invoke, send_command. destruct (needs_connect w).
    + apply (Hconn (wsUrl w)). destruct (connect (wsUrl w) w). reflexivity.
    + destruct (transactionManager w); apply Hsame; reflexivity.
  - unfold publish, invoke, send_command. destruct (needs_connect w).
    + apply (Hconn (wsUrl w)). destruct (connect (wsUrl w) w). reflexivity.
    + destruct (transactionManager w); apply Hsame; reflexivity.
  - apply Hsame. unfold resume, send_command. repeat case_match; simplify_eq; reflexivity.
  - cbn. apply alter_socket_kept; [| exact Hs]. intros s0. repeat split.
  - apply Hsame. unfold transport_open, onopen_handler, reject, resolve.
    repeat case_match; cbn [snd]; simplify_eq; frame; reflexivity.
  - apply Hsame. unfold transport_close. repeat case_match; reflexivity.
  - apply Hsame. unfold executor_settle. repeat case_match; reflexivity.
  - apply Hsame. unfold executor_event. destruct (managers w !! tm); [| reflexivity].
    rewrite iter_emit. reflexivity.
Qed.

Lemma run_socket_kept (w : World) (acts : list Action) (ws : nat) (s : Socket) :
  sockets w !! ws = Some s ->
  exists s', sockets (run w acts) !! ws = Some s' /\ same_handlers s s'.
Proof.
  revert w s. induction acts as [|a acts IH]; intros w s Hs.
  - exists s. split; [exact Hs |]. repeat split.
  - cbn. destruct (step_socket_kept w a ws s Hs) as (s1 & Hs1 & (Hu1 & Ho1 & Hc1)).
    destruct (IH _ _ Hs1) as (s2 & Hs2 & (Hu2 & Ho2 & Hc2)).
    exists s2. split; [exact Hs2 |]. repeat split; congruence.
Qed.

(** ** What later actions keep of a world *)

Lemma tx_kept_refl (tx : Transaction) : tx_kept tx tx.
Proof. repeat split. Qed.

Lemma extends_same (w w' : World) :
  streamName w' = streamName w ->
  wsUrl w' = wsUrl w ->
  length (managers w) <= length (managers w') ->
  transactions w' = transactions w ->
  extends w w'.
Proof.
  intros Hn Hu Hm Hx. repeat split; try assumption.
  intros x tx Htx. exists tx. rewrite Hx. split; [exact Htx | apply tx_kept_refl].
Qed.

Lemma extends_refl (w : World) : extends w w.
Proof. apply extends_same; reflexivity. Qed.

Lemma extends_trans (w1 w2 w3 : World) :
  extends w1 w2 -> extends w2 w3 -> extends w1 w3.
Proof.
  intros (Hn & Hu & Hm & Hx) (Hn' & Hu' & Hm' & Hx').
  split; [congruence |]. split; [congruence |]. split; [lia |].
  intros x tx Htx. destruct (Hx x tx Htx) as (tx2 & Htx2 & (He & Hc & Hd & Ho)).
  destruct (Hx' x tx2 Htx2) as (tx3 & Htx3 & (He' & Hc' & Hd' & Ho')).
  exists tx3. split; [exact Htx3 |].
  split; [congruence |]. split; [congruence |]. split; [congruence |].
  intros Hne. rewrite <- (Ho Hne). apply Ho'. rewrite (Ho Hne). exact Hne.
Qed.

Lemma extends_connect (u : string) (w : World) : extends w (snd (connect u w)).
Proof.
  destruct (connected w) as [[ws tm]|] eqn:Hcon.
  - rewrite (connect_fast u w ws tm Hcon). apply extends_same; reflexivity.
  - destruct (accepts u) eqn:Hacc;
      [| rewrite (connect_refused u w Hcon Hacc); apply extends_same; reflexivity].
    rewrite (connect_slow u w Hcon Hacc). apply extends_same; cbn; try reflexivity.
    rewrite length_app. lia.
Qed.

Lemma extends_send_command (c : Call) (d : Payload) (sent : list nat) (w : World) :
  extends w (snd (send_command c d sent w)).
Proof.
  unfold send_command. destruct (transactionManager w); [| apply extends_refl].
  split; [reflexivity |]. split; [reflexivity |]. split; [reflexivity |].
  intros x tx Htx. exists tx. split; [| apply tx_kept_refl].
  cbn. apply lookup_app_l_Some, Htx.
Qed.

Lemma extends_invoke (c : Call) (d : Payload) (w : World) :
  extends w (snd (invoke c d w)).
Proof.
  unfold invoke. destruct (needs_connect w).
  - pose proof (extends_connect (wsUrl w) w) as H.
    destruct (connect (wsUrl w) w) as [p w1]. exact H.
  - pose proof (extends_send_command c d [] w) as H.
    destruct (send_command c d [] w) as [k w1]. exact H.
Qed.

Lemma extends_resume (t : nat) (w : World) : extends w (resume t w).
Proof.
  unfold resume. repeat case_match; simplify_eq; try apply extends_refl;
    try (apply extends_same; reflexivity).
  match goal with
  | H : send_command ?c ?d ?l w = _ |- _ =>
      pose proof (extends_send_command c d l w) as He; rewrite H in He
  end.
  exact He.
Qed.

Lemma extends_executor_settle (x : nat) (o : Settled Reply) (w : World) :
  extends w (executor_settle x o w).
Proof.
  unfold executor_settle.
  destruct (transactions w !! x) as [[tm c d []]|] eqn:Hx; try apply extends_refl.
  split; [reflexivity |]. split; [reflexivity |]. split; [reflexivity |].
  intros y tx Hy. cbn. destruct (decide (x = y)) as [<-|Hne].
  - rewrite list_lookup_insert_eq by (eapply lookup_lt_Some, Hx).
    eexists. split; [reflexivity |]. rewrite Hx in Hy. injection Hy as <-.
    repeat split. cbn. congruence.
  - rewrite list_lookup_insert_ne by assumption.
    exists tx. split; [exact Hy | apply tx_kept_refl].
Qed.

Lemma extends_step (w : World) (a : Action) : extends w (step w a).
Proof.
  destruct a; cbn [step].
  - apply extends_connect.
  - unfold close. destruct (webSocket w); apply extends_same; reflexivity.
  - apply extends_invoke.
  - apply extends_invoke.
  - apply extends_resume.
  - apply extends_same; reflexivity.
  - unfold transport_open, onopen_handler, reject, resolve.
    repeat case_match; cbn [snd]; simplify_eq; try apply extends_refl;
      apply extends_same; frame; rewrite ?length_alter; reflexivity.
  - unfold transport_close. repeat case_match; apply extends_same; reflexivity.
  - apply extends_executor_settle.
  - unfold executor_event. destruct (managers w !! tm); [| apply extends_refl].
    rewrite iter_emit. apply extends_same; reflexivity.
Qed.

Lemma extends_run (w : World) (acts : list Action) : extends w (run w acts).
Proof.
  revert w. induction acts as [|a acts IH]; intros w; [apply extends_refl |].
  cbn. eapply extends_trans; [apply extends_step | apply IH].
Qed.

(** ** What an invocation has done, by phase *)

Lemma task_ok_extends (w w' : World) (k : Task) :
  extends w w' -> task_ok w k -> task_ok w' k.
Proof.
  intros (Hn & _ & Hm & Hx) [Hd Hph]. split; [congruence |].
  destruct (phase k) as [p | x | v | e]; try exact Hph.
  - destruct Hph as (Hi & tm & o & Htx & Htm). split; [exact Hi |].
    destruct (Hx x _ Htx) as ([tm' c' d' o'] & Htx' & (He & Hc & Hd' & _)).
    cbn in *. subst. exists tm, o'. split; [exact Htx' | lia].
  - destruct Hph as (x & tm & Hi & Htx & Htm).
    destruct (Hx x _ Htx) as ([tm' c' d' o'] & Htx' & (He & Hc & Hd' & Ho)).
    cbn in *. subst. rewrite Ho in Htx' by discriminate.
    exists x, tm. split; [exact Hi |]. split; [exact Htx' | lia].
Qed.

Lemma task_ok_send_command (c : Call) (d : Payload) (w : World) :
  wf w -> d = data_of c (streamName w) ->
  task_ok (snd (send_command c d [] w)) (fst (send_command c d [] w)).
Proof.
  intros Hw Hd. unfold send_command.
  destruct (transactionManager w) as [tm|] eqn:Htm; cbn.
  - split; [exact Hd |]. cbn. split; [reflexivity |].
    exists tm, Pending. split.
    + rewrite lookup_app_r by lia. rewrite Nat.sub_diag. reflexivity.
    + apply (wf_transactionManager w Hw tm Htm).
  - split; [exact Hd |]. cbn. lia.
Qed.

Lemma send_command_tasks (c : Call) (d : Payload) (sent : list nat) (w : World) :
  tasks (snd (send_command c d sent w)) = tasks w.
Proof. unfold send_command. destruct (transactionManager w); reflexivity. Qed.

Lemma connect_tasks (u : string) (w : World) :
  tasks (snd (connect u w)) = tasks w.
Proof.
  destruct (connected w) as [[ws tm]|] eqn:Hcon.
  - rewrite (connect_fast u w ws tm Hcon). reflexivity.
  - destruct (accepts u) eqn:Hacc;
      [| rewrite (connect_refused u w Hcon Hacc); reflexivity].
    rewrite (connect_slow u w Hcon Hacc). reflexivity.
Qed.

Lemma tasks_ok_invoke (c : Call) (w : World) :
  wf w -> tasks_ok w ->
  tasks_ok (snd (invoke c (data_of c (streamName w)) w)).
Proof.
  intros Hw Hok. unfold invoke. destruct (needs_connect w).
  - pose proof (extends_connect (wsUrl w) w) as He.
    pose proof (connect_tasks (wsUrl w) w) as Ht.
    destruct (connect (wsUrl w) w) as [p w1]. cbn [snd] in *.
    unfold tasks_ok. cbn. rewrite Ht. apply Forall_snoc.
    + eapply Forall_impl; [exact Hok |]. intros k. apply task_ok_extends, He.
    + split; cbn; [| reflexivity]. destruct He as (-> & _). reflexivity.
  - pose proof (extends_send_command c (data_of c (streamName w)) [] w) as He.
    pose proof (send_command_tasks c (data_of c (streamName w)) [] w) as Ht.
    pose proof (task_ok_send_command c _ w Hw eq_refl) as Hnew.
    destruct (send_command c (data_of c (streamName w)) [] w) as [k w1].
    cbn [fst snd] in *. unfold tasks_ok. cbn. rewrite Ht. apply Forall_snoc.
    + eapply Forall_impl; [exact Hok |]. intros k0. apply task_ok_extends, He.
    + exact Hnew.
Qed.

Lemma tasks_ok_resume (t : nat) (w : World) :
  wf w -> tasks_ok w -> tasks_ok (resume t w).
Proof.
  intros Hw Hok. unfold resume.
  destruct (tasks w !! t) as [k|] eqn:Hk; [| exact Hok].
  pose proof (proj1 (Forall_lookup _ _) Hok t k Hk) as [Hd Hph].
  destruct (phase k) as [p | x | v | e] eqn:Hphase; try exact Hok.
  - destruct (promises w !! p) as [[| v | e]|]; try exact Hok.
    + pose proof (extends_send_command (call k) (payload k) (issued k) w) as He.
      pose proof (task_ok_send_command (call k) (payload k) w Hw Hd) as Hnew.
      rewrite <- Hph in Hnew.
      pose proof (send_command_tasks (call k) (payload k) (issued k) w) as Ht.
      destruct (send_command (call k) (payload k) (issued k) w) as [k' w1].
      cbn [fst snd] in *. unfold tasks_ok. cbn. rewrite Ht.
      apply Forall_insert; [| exact Hnew].
      eapply Forall_impl; [exact Hok |]. intros k0. apply task_ok_extends, He.
    + apply Forall_insert; [exact Hok |]. split; [exact Hd |]. cbn.
      rewrite Hph. cbn. lia.
  - destruct Hph as (Hi & tm & o & Htx & Htm). rewrite Htx. cbn.
    destruct o as [| [| s] | e]; try exact Hok; cbn.
    + apply Forall_insert; [exact Hok |]. split; [exact Hd |]. cbn.
      rewrite Hi. cbn. lia.
    + apply Forall_insert; [exact Hok |]. split; [exact Hd |]. cbn.
      exists x, tm. auto.
    + apply Forall_insert; [exact Hok |]. split; [exact Hd |]. cbn.
      rewrite Hi. cbn. lia.
Qed.

Lemma tasks_ok_kept (w w' : World) :
  extends w w' -> tasks w' = tasks w -> tasks_ok w -> tasks_ok w'.
Proof.
  intros He Ht Hok. unfold tasks_ok. rewrite Ht.
  eapply Forall_impl; [exact Hok |]. intros k. apply task_ok_extends, He.
Qed.

Lemma tasks_ok_step (w : World) (a : Action) :
  wf w -> tasks_ok w -> tasks_ok (step w a).
Proof.
  intros Hw Hok.
  assert (Hkept : tasks (step w a) = tasks w -> tasks_ok (step w a)).
  { intros Ht. eapply tasks_ok_kept; [apply extends_step | exact Ht | exact Hok]. }
  destruct a; cbn [step] in *.
  - apply Hkept, connect_tasks.
  - apply Hkept. unfold close. destruct (webSocket w); reflexivity.
  - apply (tasks_ok_invoke (SubscribeCall sdp) w Hw Hok).
  - apply (tasks_ok_invoke (PublishCall sdp) w Hw Hok).
  - apply tasks_ok_resume; assumption.
  - apply Hkept. reflexivity.
  - apply Hkept. unfold transport_open, onopen_handler, reject, resolve.
    repeat case_match; cbn [snd]; simplify_eq; frame; reflexivity.
  - apply Hkept. unfold transport_close. repeat case_match; reflexivity.
  - apply Hkept. unfold executor_settle. repeat case_match; reflexivity.
  - apply Hkept. unfold executor_event. destruct (managers w !! tm); [| reflexivity].
    rewrite iter_emit. reflexivity.
Qed.

Lemma tasks_ok_run (w : World) (acts : list Action) :
  wf w -> tasks_ok w -> tasks_ok (run w acts).
Proof.
  revert w. induction acts as [|a acts IH]; intros w Hw Hok; [exact Hok |].
  cbn. apply IH; [apply wf_step, Hw | apply tasks_ok_step; assumption].
Qed.

Lemma tasks_ok_reachable (options : Options) (acts : list Action) :
  tasks_ok (run (construct options) acts).
Proof. apply tasks_ok_run; [apply wf_construct | constructor]. Qed.

Lemma streamName_reachable (options : Options) (acts : list Action) :
  streamName (run (construct options) acts) = opt_streamName options.
Proof. apply (extends_run (construct options) acts). Qed.

Lemma resume_finished (t : nat) (w : World) (k : Task) :
  tasks w !! t = Some k -> finished k -> resume t w = w.
Proof.
  intros Hk Hf. unfold resume. rewrite Hk. unfold finished in Hf.
  destruct (phase k); tauto.
Qed.

Lemma resume_other (t t' : nat) (w : World) (k : Task) :
  t <> t' -> tasks w !! t = Some k -> tasks (resume t' w) !! t = Some k.
Proof.
  intros Hne Hk. unfold resume.
  repeat case_match; simplify_eq; cbn; try exact Hk;
    rewrite list_lookup_insert_ne by congruence; try exact Hk.
  match goal with
  | H : send_command ?c ?d ?l w = (_, ?w1) |- _ =>
      pose proof (send_command_tasks c d l w) as Ht; rewrite H in Ht;
      cbn in Ht; rewrite Ht
  end.
  exact Hk.
Qed.

Lemma invoke_tasks (c : Call) (d : Payload) (w : World) :
  exists k, tasks (snd (invoke c d w)) = tasks w ++ [k].
Proof.
  unfold invoke. destruct (needs_connect w).
  - pose proof (connect_tasks (wsUrl w) w) as Ht.
    destruct (connect (wsUrl w) w) as [p w1]. cbn in *. rewrite Ht. eauto.
  - pose proof (send_command_tasks c d [] w) as Ht.
    destruct (send_command c d [] w) as [k w1]. cbn in *. rewrite Ht. eauto.
Qed.

Lemma step_finished_kept (w : World) (a : Action) (t : nat) (k : Task) :
  tasks w !! t = Some k -> finished k -> tasks (step w a) !! t = Some k.
Proof.
  intros Hk Hf.
  assert (Hsame : forall w', tasks w' = tasks w -> tasks w' !! t = Some k).
  { intros w' ->. exact Hk. }
  destruct a; cbn [step].
  - apply Hsame, connect_tasks.
  - apply Hsame. unfold close. destruct (webSocket w); reflexivity.
  - destruct (invoke_tasks (SubscribeCall sdp) (ViewData sdp (streamName w)) w)
      as [k' Hk'].
    unfold subscribe. rewrite Hk'. apply lookup_app_l_Some, Hk.
  - destruct (invoke_tasks (PublishCall sdp) (PublishData (streamName w) sdp "h264") w)
      as [k' Hk'].
    unfold publish. rewrite Hk'. apply lookup_app_l_Some, Hk.
  - destruct (decide (t = t0)) as [<-|Hne].
    + rewrite (resume_finished t w k Hk Hf). exact Hk.
    + apply resume_other; assumption.
  - apply Hsame. reflexivity.
  - apply Hsame. unfold transport_open, onopen_handler, reject, resolve.
    repeat case_match; cbn [snd]; simplify_eq; frame; reflexivity.
  - apply Hsame. unfold transport_close. repeat case_match; reflexivity.
  - apply Hsame. unfold executor_settle. repeat case_match; reflexivity.
  - apply Hsame. unfold executor_event. destruct (managers w !! tm); [| reflexivity].
    rewrite iter_emit. reflexivity.
Qed.

Lemma run_finished_kept (w : World) (acts : list Action) (t : nat) (k : Task) :
  tasks w !! t = Some k -> finished k -> tasks (run w acts) !! t = Some k.
Proof.
  revert w. induction acts as [|a acts IH]; intros w Hk Hf; [exact Hk |].
  cbn. apply IH; [| exact Hf]. apply step_finished_kept; assumption.
Qed.

(** ** The command logs account for every command *)

Lemma sum_list_with_insert {A : Type} (f : A -> nat) (l : list A) (i : nat)
    (x y : A) :
  l !! i = Some x ->
  sum_list_with f (<[i := y]> l) + f x = sum_list_with f l + f y.
Proof.
  revert i. induction l as [|a l IH]; intros i Hi; [discriminate |].
  destruct i as [|i]; simpl in *.
  - injection Hi as ->. lia.
  - specialize (IH i Hi). lia.
Qed.

Lemma connect_transactions (u : string) (w : World) :
  transactions (snd (connect u w)) = transactions w.
Proof.
  destruct (connected w) as [[ws tm]|] eqn:Hcon.
  - rewrite (connect_fast u w ws tm Hcon). reflexivity.
  - destruct (accepts u) eqn:Hacc;
      [| rewrite (connect_refused u w Hcon Hacc); reflexivity].
    rewrite (connect_slow u w Hcon Hacc). reflexivity.
Qed.

Lemma send_command_logged (c : Call) (d : Payload) (sent : list nat) (w : World) :
  length (transactions (snd (send_command c d sent w))) + length sent =
  length (transactions w) + length (issued (fst (send_command c d sent w))).
Proof.
  unfold send_command. destruct (transactionManager w); cbn.
  - rewrite !length_app. cbn. lia.
  - lia.
Qed.

Lemma commands_logged_invoke (c : Call) (d : Payload) (w : World) :
  commands_logged w -> commands_logged (snd (invoke c d w)).
Proof.
  unfold commands_logged, invoke. intros Hl. destruct (needs_connect w).
  - pose proof (connect_transactions (wsUrl w) w) as Hx.
    pose proof (connect_tasks (wsUrl w) w) as Ht.
    destruct (connect (wsUrl w) w) as [p w1]. cbn in *.
    rewrite Hx, Ht, sum_list_with_app. cbn. lia.
  - pose proof (send_command_logged c d [] w) as Hx.
    pose proof (send_command_tasks c d [] w) as Ht.
    destruct (send_command c d [] w) as [k w1]. cbn in *.
    rewrite Ht, sum_list_with_app. cbn. lia.
Qed.

Lemma commands_logged_resume (t : nat) (w : World) :
  commands_logged w -> commands_logged (resume t w).
Proof.
  unfold commands_logged, resume. intros Hl.
  destruct (tasks w !! t) as [k|] eqn:Hk; [| exact Hl].
  assert (Hfin : forall ph,
            length (transactions w) =
            sum_list_with (fun k => length (issued k))
                          (<[t := finish k ph]> (tasks w))).
  { intros ph.
    pose proof (sum_list_with_insert (fun k => length (issued k))
                  (tasks w) t k (finish k ph) Hk) as Hs.
    cbn in Hs. lia. }
  destruct (phase k) as [p | x | v | e]; try exact Hl.
  - destruct (promises w !! p) as [[| v | e]|]; try exact Hl; [| apply Hfin].
    pose proof (send_command_logged (call k) (payload k) (issued k) w) as Hx.
    pose proof (send_command_tasks (call k) (payload k) (issued k) w) as Ht.
    destruct (send_command (call k) (payload k) (issued k) w) as [k' w1].
    cbn in *. rewrite Ht.
    pose proof (sum_list_with_insert (fun k => length (issued k))
                  (tasks w) t k k' Hk) as Hs.
    cbn in Hs. lia.
  - destruct (outcome <$> transactions w !! x) as [[| r | e]|]; try exact Hl.
    + destruct (sdp_of r); apply Hfin.
    + apply Hfin.
Qed.

Lemma commands_logged_step (w : World) (a : Action) :
  commands_logged w -> commands_logged (step w a).
Proof.
  intros Hl.
  assert (Hsame : forall w', transactions w' = transactions w ->
            tasks w' = tasks w -> commands_logged w').
  { unfold commands_logged. intros w' -> ->. exact Hl. }
  destruct a; cbn [step].
  - apply Hsame; [apply connect_transactions | apply connect_tasks].
  - unfold close. destruct (webSocket w); apply Hsame; reflexivity.
  - apply commands_logged_invoke, Hl.
  - apply commands_logged_invoke, Hl.
  - apply commands_logged_resume, Hl.
  - apply Hsame; reflexivity.
  - unfold transport_open, onopen_handler, reject, resolve.
    repeat case_match; cbn [snd]; simplify_eq; apply Hsame; frame; reflexivity.
  - unfold transport_close. repeat case_match; apply Hsame; reflexivity.
  - unfold commands_logged, executor_settle.
    repeat case_match; try exact Hl. cbn. rewrite length_insert. exact Hl.
  - unfold executor_event. destruct (managers w !! tm); [| exact Hl].
    rewrite iter_emit. apply Hsame; reflexivity.
Qed.

Lemma commands_logged_reachable (options : Options) (acts : list Action) :
  commands_logged (run (construct options) acts).
Proof.
  assert (H : forall w, commands_logged w -> commands_logged (run w acts)).
  { induction acts as [|a acts IH]; intros w Hl; [exact Hl |].
    cbn. apply IH, commands_logged_step, Hl. }
  apply H. reflexivity.
Qed.

(** ** connect on an open connection *)

(** C2.  When [transactionManager] is set and [webSocket] is [OPEN],
    [connect] resolves with the existing socket, constructs neither a
    socket nor an executor, leaves the fields alone and emits one
    [connectionSuccess] carrying the existing socket and executor; a
    second [connect] in the resulting state resolves with the same socket,
    again without constructing anything. *)
Theorem connect_open_returns_existing (w : World) (u u' : string) (ws tm : nat) :
  transactionManager w = Some tm ->
  webSocket w = Some ws ->
  readyStateOf ws w = Some OPEN ->
  let '(p, w1) := connect u w in
  let '(p', w2) := connect u' w1 in
  promises w1 !! p = Some (Resolved ws) /\
  sockets w1 = sockets w /\ managers w1 = managers w /\
  webSocket w1 = Some ws /\ transactionManager w1 = Some tm /\
  emitted w1 =
    emitted w ++ [mkEmission (connectionSuccess ws tm) (Some ws) (Some tm)] /\
  p' <> p /\
  promises w2 !! p = Some (Resolved ws) /\
  promises w2 !! p' = Some (Resolved ws) /\
  sockets w2 = sockets w /\ managers w2 = managers w /\
  webSocket w2 = Some ws /\ transactionManager w2 = Some tm.
Proof.
  intros Htm Hws Hopen.
  assert (Hc : connected w = Some (ws, tm)) by (apply connected_Some; auto).
  rewrite (connect_fast u w ws tm Hc).
  set (w1 := mkWorld _ _ _ _ _ _ _ _ _ _).
  assert (Hc1 : connected w1 = Some (ws, tm)).
  { apply connected_Some. subst w1. cbn. auto. }
  rewrite (connect_fast u' w1 ws tm Hc1). subst w1. cbn.
  rewrite Htm, Hws, length_app. cbn.
  repeat split; try reflexivity.
  - rewrite lookup_app_r by lia. rewrite Nat.sub_diag. reflexivity.
  - lia.
  - rewrite lookup_app_l by (rewrite length_app; cbn; lia).
    rewrite lookup_app_r by lia. rewrite Nat.sub_diag. reflexivity.
  - rewrite lookup_app_r by (rewrite length_app; cbn; lia).
    rewrite length_app. cbn.
    replace (length (promises w) + 1 - (length (promises w) + 1)) with 0 by lia.
    reflexivity.
Qed.

(** ** The open notification in a bad readiness state *)

(** C1.  What [onopen] does when the socket in [this.webSocket] is not
    [OPEN] and the promise it captured is still pending: it emits
    [connectionError] with [{ state }] and rejects the promise with the
    same value, and then, since nothing leaves the handler after
    [reject(error)], runs on: it registers the event listener and emits
    [connectionSuccess] for the same open.  The later [resolve] has no
    effect on the rejected promise. *)
Theorem onopen_not_ready_error_then_success
    (w : World) (p ws tm : nat) (rs : ReadyState) :
  webSocket w = Some ws ->
  transactionManager w = Some tm ->
  readyStateOf ws w = Some rs ->
  rs <> OPEN ->
  promises w !! p = Some Pending ->
  exists w',
    onopen_handler p w = (Normal tt, w') /\
    promises w' !! p = Some (Rejected (StateError rs)) /\
    emitted w' =
      emitted w ++
        [mkEmission (connectionError (StateError rs)) (Some ws) (Some tm);
         mkEmission (connectionSuccess ws tm) (Some ws) (Some tm)].
Proof.
  intros Hws Htm Hrs Hne Hp.
  assert (Hlt : p < length (promises w)) by (eapply lookup_lt_Some; eauto).
  unfold onopen_handler. rewrite Hws, Hrs.
  rewrite bool_decide_eq_false_2 by assumption.
  unfold reject, resolve, settle, emit. cbn. rewrite Hp. cbn.
  rewrite Htm. cbn. rewrite list_lookup_insert_eq by assumption.
  eexists. split; [reflexivity |]. cbn.
  rewrite list_lookup_insert_eq by assumption.
  split; [reflexivity |].
  rewrite <- app_assoc. cbn. rewrite ?Hws, ?Htm. reflexivity.
Qed.

(** ** connect while a connection attempt is in flight *)

(** C3, as the code behaves.  With a socket in [webSocket] that is not
    [OPEN] and a url the [WebSocket] constructor accepts, [connect] opens
    a second socket and constructs a second executor on it, makes them
    the session's handles and returns a new pending promise; promises
    handed out earlier are left as they are, so the earlier attempt stays
    in flight beside the new one.  Whatever the world, a call of
    [connect] opens no socket exactly when the session is connected
    ([transactionManager] set and [webSocket] [OPEN]) or the constructor
    refuses the url. *)
Theorem connect_while_connecting_opens_transport (w : World) (u : string) (ws : nat) :
  (webSocket w = Some ws ->
   readyStateOf ws w <> Some OPEN ->
   accepts u = true ->
   let '(p, w1) := connect u w in
   p = length (promises w) /\
   promises w1 = promises w ++ [Pending] /\
   sockets w1 = sockets w ++ [mkSocket u CONNECTING (Some p) true 0] /\
   managers w1 = managers w ++ [mkManager (length (sockets w)) 0] /\
   webSocket w1 = Some (length (sockets w)) /\
   transactionManager w1 = Some (length (managers w))) /\
  (forall w0 u0,
     sockets (snd (connect u0 w0)) = sockets w0 <->
     (exists ws0 tm0,
        transactionManager w0 = Some tm0 /\ webSocket w0 = Some ws0 /\
        readyStateOf ws0 w0 = Some OPEN) \/
     accepts u0 = false).
Proof.
  split.
  - intros Hws Hrs Hacc.
    assert (Hcon : connected w = None).
    { apply connected_None. right. right. eauto. }
    rewrite (connect_slow u w Hcon Hacc). cbn. repeat split.
  - intros w0 u0. destruct (connected w0) as [[ws0 tm0]|] eqn:Hcon.
    + rewrite (connect_fast u0 w0 ws0 tm0 Hcon). cbn.
      apply connected_Some in Hcon. split; [| reflexivity].
      intros _. left. exists ws0, tm0. exact Hcon.
    + destruct (accepts u0) eqn:Hacc.
      * rewrite (connect_slow u0 w0 Hcon Hacc). cbn. split.
        -- intros Heq. apply (f_equal length) in Heq.
           rewrite length_app in Heq. cbn in Heq. lia.
        -- intros [(ws0 & tm0 & Hc) | Hf]; [| discriminate].
           apply connected_Some in Hc. congruence.
      * rewrite (connect_refused u0 w0 Hcon Hacc). cbn. split; auto.
Qed.

(** ** The close notification *)

Lemma step_fields (w : World) (a : Action) :
  (webSocket (step w a) = webSocket w /\
   transactionManager (step w a) = transactionManager w) \/
  (webSocket (step w a) = Some (length (sockets w)) /\
   transactionManager (step w a) = Some (length (managers w))) \/
  (exists ws, a = TransportClose ws /\
     webSocket (step w a) = None /\ transactionManager (step w a) = None).
Proof.
  assert (Hconn : forall u w',
            webSocket w' = webSocket (snd (connect u w)) ->
            transactionManager w' = transactionManager (snd (connect u w)) ->
            (webSocket w' = webSocket w /\
             transactionManager w' = transactionManager w) \/
            (webSocket w' = Some (length (sockets w)) /\
             transactionManager w' = Some (length (managers w)))).
  { intros u w' -> ->. destruct (connected w) as [[ws tm]|] eqn:Hcon.
    - rewrite (connect_fast u w ws tm Hcon). left. split; reflexivity.
    - destruct (accepts u) eqn:Hacc;
        [| rewrite (connect_refused u w Hcon Hacc); left; split; reflexivity].
      rewrite (connect_slow u w Hcon Hacc). right. split; reflexivity. }
  assert (Hinv : forall c d,
            (webSocket (snd (invoke c d w)) = webSocket w /\
             transactionManager (snd (invoke c d w)) = transactionManager w) \/
            (webSocket (snd (invoke c d w)) = Some (length (sockets w)) /\
             transactionManager (snd (invoke c d w)) = Some (length (managers w)))).
  { intros c d. unfold invoke, send_command. destruct (needs_connect w).
    - apply (Hconn (wsUrl w)); destruct (connect (wsUrl w) w); reflexivity.
    - destruct (transactionManager w) eqn:E; cbn; rewrite ?E; left; split; reflexivity. }
  destruct a; cbn [step].
  - destruct (Hconn u _ eq_refl eq_refl); tauto.
  - left. unfold close. destruct (webSocket w) eqn:E; cbn; auto.
  - destruct (Hinv (SubscribeCall sdp) (ViewData sdp (streamName w))); tauto.
  - destruct (Hinv (PublishCall sdp) (PublishData (streamName w) sdp "h264")); tauto.
  - left. unfold resume, send_command.
    repeat case_match; simplify_eq; split; cbn; congruence.
  - left. split; reflexivity.
  - left. unfold transport_open, onopen_handler, reject, resolve.
    repeat case_match; cbn [snd]; simplify_eq; frame; split; congruence.
  - unfold transport_close. repeat case_match; try (left; split; reflexivity).
    right. right. exists ws. repeat split.
  - left. unfold executor_settle. repeat case_match; split; reflexivity.
  - left. unfold executor_event. destruct (managers w !! tm); [| split; reflexivity].
    rewrite iter_emit. split; reflexivity.
Qed.

Lemma step_clears_webSocket (w : World) (a : Action) :
  is_Some (webSocket w) -> webSocket (step w a) = None ->
  exists ws, a = TransportClose ws.
Proof.
  intros [ws Hws] Hnone.
  destruct (step_fields w a) as [[H _] | [[H _] | (ws' & -> & _)]];
    [congruence | congruence | eauto].
Qed.

Lemma step_clears_transactionManager (w : World) (a : Action) :
  is_Some (transactionManager w) -> transactionManager (step w a) = None ->
  exists ws, a = TransportClose ws.
Proof.
  intros [tm Htm] Hnone.
  destruct (step_fields w a) as [[_ H] | [[_ H] | (ws' & -> & _)]];
    [congruence | congruence | eauto].
Qed.

Lemma transport_close_installed (w : World) (ws : nat) :
  wf w -> ws < length (sockets w) ->
  step w (TransportClose ws) =
    mkWorld None None (streamName w) (wsUrl w) (sockets w) (managers w)
      (promises w) (transactions w) (tasks w)
      (emitted w ++ [mkEmission connectionClose None None]).
Proof.
  intros Hw Hlt. cbn. unfold transport_close.
  destruct (lookup_lt_is_Some_2 _ _ Hlt) as [s Hs]. rewrite Hs.
  pose proof (wf_sockets w Hw) as Hall.
  rewrite Forall_lookup in Hall. destruct (Hall ws s Hs) as [-> _].
  reflexivity.
Qed.

(** C5.  In a world the session can reach, the close notification of any
    of its sockets runs the handler, which leaves both fields null, emits
    one [connectionClose] whose listeners already find both fields null,
    and changes nothing else.  No other action takes either field from
    non-null to null. *)
Theorem transport_close_resets_session
    (options : Options) (acts : list Action) (ws : nat) :
  let w := run (construct options) acts in
  ws < length (sockets w) ->
  let w' := step w (TransportClose ws) in
  webSocket w' = None /\ transactionManager w' = None /\
  emitted w' = emitted w ++ [mkEmission connectionClose None None] /\
  sockets w' = sockets w /\ managers w' = managers w /\
  promises w' = promises w /\ transactions w' = transactions w /\
  tasks w' = tasks w /\
  (forall w0 a, is_Some (webSocket w0) -> webSocket (step w0 a) = None ->
                exists ws', a = TransportClose ws') /\
  (forall w0 a, is_Some (transactionManager w0) ->
                transactionManager (step w0 a) = None ->
                exists ws', a = TransportClose ws').
Proof.
  intros w Hlt w'. subst w'.
  rewrite (transport_close_installed w ws) by
    (try exact Hlt; apply wf_run, wf_construct).
  cbn. repeat split.
  - apply step_clears_webSocket.
  - apply step_clears_transactionManager.
Qed.

(** ** close *)

(** C9.  [close()] always completes normally, writes neither field and
    emits nothing.  With a socket in [webSocket] it calls that socket's
    [close()] once and does nothing else; it is the close notification of
    that socket, handled by the installed [onclose], which afterwards
    clears the fields and emits [connectionClose].  With [webSocket] null
    [close()] leaves the whole world as it is. *)
Theorem close_requests_transport_close (w : World) :
  exists w',
    close w = (Normal tt, w') /\
    webSocket w' = webSocket w /\
    transactionManager w' = transactionManager w /\
    emitted w' = emitted w /\
    (forall ws, webSocket w = Some ws ->
       w' = set_sockets (alter socket_close ws (sockets w)) w /\
       forall s, sockets w !! ws = Some s ->
         sockets w' !! ws = Some (socket_close s) /\
         closeCalls (socket_close s) = S (closeCalls s) /\
         (onclose s = true ->
          webSocket (step w' (TransportClose ws)) = None /\
          transactionManager (step w' (TransportClose ws)) = None /\
          emitted (step w' (TransportClose ws)) =
            emitted w ++ [mkEmission connectionClose None None])) /\
    (webSocket w = None -> w' = w).
Proof.
  unfold close. destruct (webSocket w) as [ws|] eqn:Hws.
  - eexists. split; [reflexivity |]. cbn.
    split; [exact Hws |]. split; [reflexivity |]. split; [reflexivity |].
    split; [| discriminate].
    intros ws' [= <-]. split; [reflexivity |].
    intros s Hs.
    assert (Hs' : alter socket_close ws (sockets w) !! ws = Some (socket_close s))
      by (rewrite list_lookup_alter_eq, Hs; reflexivity).
    split; [exact Hs' |]. split; [reflexivity |].
    intros Hon. unfold transport_close. cbn. rewrite Hs'. cbn. rewrite Hon.
    cbn. repeat split.
  - exists w. split; [reflexivity |].
    split; [exact Hws |]. split; [reflexivity |]. split; [reflexivity |].
    split; [discriminate | reflexivity].
Qed.

(** ** A replaced socket closes *)

(** C10, as the code behaves.  In a world the session can reach, with a
    socket [old] in [webSocket] and the guard of the first branch of
    [connect] false: when the [WebSocket] constructor accepts the url,
    [connect] constructs a new socket and a new executor and stores them
    in the fields; the entry of [old] is untouched, so its [close()] was
    not called and its handlers are still installed.  After any further
    actions the close notification of [old] sets both fields to null and
    emits [connectionClose], whatever the fields hold then; right after
    [connect] they hold the new socket and executor.  When the
    constructor refuses the url, [connect] constructs nothing, leaves
    [old] and its executor in the fields and returns a promise rejected
    with the constructor's exception. *)
Theorem stale_onclose_clears_new_connection
    (options : Options) (acts0 : list Action) (u : string) (old : nat) :
  let w := run (construct options) acts0 in
  webSocket w = Some old ->
  transactionManager w = None \/ readyStateOf old w <> Some OPEN ->
  (accepts u = true ->
   let '(p, w1) := connect u w in
   exists s,
     sockets w !! old = Some s /\
     sockets w1 = sockets w ++ [mkSocket u CONNECTING (Some p) true 0] /\
     managers w1 = managers w ++ [mkManager (length (sockets w)) 0] /\
     webSocket w1 = Some (length (sockets w)) /\
     length (sockets w) <> old /\
     transactionManager w1 = Some (length (managers w)) /\
     sockets w1 !! old = Some s /\
     onclose s = true /\
     forall acts,
       let w2 := run w1 acts in
       let w3 := step w2 (TransportClose old) in
       webSocket w3 = None /\ transactionManager w3 = None /\
       emitted w3 = emitted w2 ++ [mkEmission connectionClose None None]) /\
  (accepts u = false ->
   connect u w =
     (length (promises w),
      mkWorld (Some old) (transactionManager w) (streamName w) (wsUrl w)
        (sockets w) (managers w) (promises w ++ [Rejected SyntaxError])
        (transactions w) (tasks w) (emitted w))).
Proof.
  intros w Hws Hguard.
  assert (Hw : wf w) by apply wf_run, wf_construct.
  assert (Hcon : connected w = None).
  { apply connected_None. destruct Hguard; eauto. }
  split; [| intros Hacc; rewrite (connect_refused u w Hcon Hacc), Hws; reflexivity].
  intros Hacc.
  pose proof (wf_connect u w Hw) as Hw1.
  rewrite (connect_slow u w Hcon Hacc) in Hw1. cbn [snd] in Hw1.
  rewrite (connect_slow u w Hcon Hacc).
  set (w1 := mkWorld _ _ _ _ _ _ _ _ _ _) in Hw1 |- *.
  pose proof (wf_webSocket w Hw old Hws) as Hlt.
  destruct (lookup_lt_is_Some_2 _ _ Hlt) as [s Hs].
  assert (Hs1 : sockets w1 !! old = Some s).
  { subst w1. cbn. apply lookup_app_l_Some, Hs. }
  exists s. split; [exact Hs |]. split; [reflexivity |]. split; [reflexivity |].
  split; [reflexivity |]. split; [lia |]. split; [reflexivity |].
  split; [exact Hs1 |]. split.
  { pose proof (wf_sockets w Hw) as Hall. rewrite Forall_lookup in Hall.
    apply (Hall old s Hs). }
  intros acts w2 w3. subst w3.
  destruct (run_socket_kept w1 acts old s Hs1) as (s2 & Hs2 & _).
  rewrite (transport_close_installed w2 old).
  - cbn. repeat split.
  - apply wf_run, Hw1.
  - eapply lookup_lt_Some, Hs2.
Qed.

(** ** subscribe and publish *)

(** C6.  In a world the session can reach, an invocation of
    [subscribe(sdp)] that returned [v] has handed exactly one command to
    an executor: it is named ["view"], its payload is
    [{ sdp, streamId: streamName }] with the session's stream name, and it
    resolved with an object whose [sdp] property is [v]. *)
Theorem subscribe_returns_view_answer
    (options : Options) (acts : list Action) (t : nat) (k : Task)
    (sdp : string) (v : option string) :
  let w := run (construct options) acts in
  tasks w !! t = Some k ->
  call k = SubscribeCall sdp ->
  phase k = Returned v ->
  exists x tm,
    issued k = [x] /\
    tm < length (managers w) /\
    transactions w !! x =
      Some (mkTransaction tm "view" (ViewData sdp (opt_streamName options))
                          (Resolved (ReplyObject v))).
Proof.
  intros w Hk Hcall Hph.
  pose proof (tasks_ok_reachable options acts) as Hok.
  pose proof (proj1 (Forall_lookup _ _) Hok t k Hk) as [Hd Hphase].
  rewrite Hph in Hphase. destruct Hphase as (x & tm & Hi & Htx & Htm).
  rewrite Hd, Hcall, streamName_reachable in Htx. cbn in Htx.
  exists x, tm. auto.
Qed.

(** C7.  In a world the session can reach, an invocation of
    [publish(sdp)] that returned [v] has handed exactly one command to an
    executor: it is named ["publish"], its payload is
    [{ name: streamName, sdp, codec: 'h264' }] with the session's stream
    name, and it resolved with an object whose [sdp] property is [v]. *)
Theorem publish_returns_publish_answer
    (options : Options) (acts : list Action) (t : nat) (k : Task)
    (sdp : string) (v : option string) :
  let w := run (construct options) acts in
  tasks w !! t = Some k ->
  call k = PublishCall sdp ->
  phase k = Returned v ->
  exists x tm,
    issued k = [x] /\
    tm < length (managers w) /\
    transactions w !! x =
      Some (mkTransaction tm "publish"
                          (PublishData (opt_streamName options) sdp "h264")
                          (Resolved (ReplyObject v))).
Proof.
  intros w Hk Hcall Hph.
  pose proof (tasks_ok_reachable options acts) as Hok.
  pose proof (proj1 (Forall_lookup _ _) Hok t k Hk) as [Hd Hphase].
  rewrite Hph in Hphase. destruct Hphase as (x & tm & Hi & Htx & Htm).
  rewrite Hd, Hcall, streamName_reachable in Htx. cbn in Htx.
  exists x, tm. auto.
Qed.

(** ** Connecting first, and failures *)

(** C8.  When [webSocket] is null or not [OPEN], [subscribe] and
    [publish] call [connect] with [wsUrl] and suspend on the promise it
    returns, having sent no command: the world after the call is the
    world after [connect(wsUrl)] (a new socket on [wsUrl] with its
    executor and a pending promise, or, when the constructor refuses
    [wsUrl], no socket and a promise rejected with its exception) plus
    the suspended invocation.  The suspended invocation does nothing
    while that promise is pending; once it is resolved it hands its one
    command, under its name and with its [data], to the executor in
    [transactionManager] and suspends on it; if the promise is rejected
    with [e] it ends throwing [e], and nothing else in the world
    changes.  An invocation suspended on its command ends throwing the
    value the command was rejected with, and nothing else changes.  An
    invocation that threw is left as it is by every later action. *)
Theorem invocation_connects_first_and_rethrows
    (w : World) (sdp : string) (t : nat) (k : Task) :
  (webSocket w = None \/
   (exists ws, webSocket w = Some ws /\ readyStateOf ws w <> Some OPEN) ->
   let p := length (promises w) in
   let viewing :=
     mkTask (SubscribeCall sdp) (ViewData sdp (streamName w)) []
            (AwaitConnect p) in
   let publishing :=
     mkTask (PublishCall sdp) (PublishData (streamName w) sdp "h264") []
            (AwaitConnect p) in
   let connecting_with := fun k0 : Task =>
     mkWorld (Some (length (sockets w))) (Some (length (managers w)))
       (streamName w) (wsUrl w)
       (sockets w ++ [mkSocket (wsUrl w) CONNECTING (Some p) true 0])
       (managers w ++ [mkManager (length (sockets w)) 0])
       (promises w ++ [Pending])
       (transactions w) (tasks w ++ [k0]) (emitted w) in
   let refused_with := fun k0 : Task =>
     mkWorld (webSocket w) (transactionManager w) (streamName w) (wsUrl w)
       (sockets w) (managers w) (promises w ++ [Rejected SyntaxError])
       (transactions w) (tasks w ++ [k0]) (emitted w) in
   (accepts (wsUrl w) = true ->
    subscribe sdp w = (length (tasks w), connecting_with viewing) /\
    publish sdp w = (length (tasks w), connecting_with publishing)) /\
   (accepts (wsUrl w) = false ->
    subscribe sdp w = (length (tasks w), refused_with viewing) /\
    publish sdp w = (length (tasks w), refused_with publishing))) /\
  (tasks w !! t = Some k ->
   (forall p, phase k = AwaitConnect p ->
      (promises w !! p = Some Pending -> resume t w = w) /\
      (forall ws tm,
         promises w !! p = Some (Resolved ws) ->
         transactionManager w = Some tm ->
         resume t w =
           mkWorld (webSocket w) (transactionManager w) (streamName w) (wsUrl w)
             (sockets w) (managers w) (promises w)
             (transactions w ++
                [mkTransaction tm (command_of (call k)) (payload k) Pending])
             (<[t := mkTask (call k) (payload k)
                            (issued k ++ [length (transactions w)])
                            (AwaitCmd (length (transactions w)))]> (tasks w))
             (emitted w)) /\
      (forall e, promises w !! p = Some (Rejected e) ->
         resume t w =
           mkWorld (webSocket w) (transactionManager w) (streamName w) (wsUrl w)
             (sockets w) (managers w) (promises w) (transactions w)
             (<[t := mkTask (call k) (payload k) (issued k) (Threw e)]> (tasks w))
             (emitted w))) /\
   (forall x tx e, phase k = AwaitCmd x ->
      transactions w !! x = Some tx -> outcome tx = Rejected e ->
      resume t w =
        mkWorld (webSocket w) (transactionManager w) (streamName w) (wsUrl w)
          (sockets w) (managers w) (promises w) (transactions w)
          (<[t := mkTask (call k) (payload k) (issued k) (Threw e)]> (tasks w))
          (emitted w)) /\
   (forall e, phase k = Threw e ->
      forall acts, tasks (run w acts) !! t = Some k)).
Proof.
  split.
  - intros Hneed p viewing publishing connecting_with refused_with.
    assert (Hn : needs_connect w = true) by (apply needs_connect_true, Hneed).
    pose proof (needs_connect_connected w Hn) as Hcon.
    split; intros Hacc; unfold subscribe, publish, invoke; rewrite Hn.
    + rewrite (connect_slow (wsUrl w) w Hcon Hacc). split; reflexivity.
    + rewrite (connect_refused (wsUrl w) w Hcon Hacc). split; reflexivity.
  - intros Hk. split; [| split].
    + intros p Hph. unfold resume. rewrite Hk, Hph. split; [| split].
      * intros ->. reflexivity.
      * intros ws tm -> Htm. unfold send_command. rewrite Htm.
        unfold set_tasks, set_transactions. cbn. rewrite Htm. reflexivity.
      * intros e ->. reflexivity.
    + intros x tx e Hph Htx Ho. unfold resume. rewrite Hk, Hph, Htx. cbn.
      rewrite Ho. reflexivity.
    + intros e Hph acts. apply run_finished_kept; [exact Hk |].
      unfold finished. rewrite Hph. exact I.
Qed.

(** * Further properties of the class *)

(** ** Invariants over runs *)

Lemma run_invariant (P : World -> Prop) :
  (forall w a, wf w -> tasks_ok w -> P w -> P (step w a)) ->
  forall w acts, wf w -> tasks_ok w -> P w -> P (run w acts).
Proof.
  intros Hstep w acts. revert w.
  induction acts as [|a acts IH]; intros w Hw Hok HP; [exact HP |].
  cbn. apply IH; [apply wf_step, Hw | apply tasks_ok_step; assumption |].
  apply Hstep; assumption.
Qed.

(** X1.  The constructor's [streamName] and [wsUrl] are never written again. *)
Theorem options_never_change (options : Options) (acts : list Action) :
  streamName (run (construct options) acts) = opt_streamName options /\
  wsUrl (run (construct options) acts) = opt_url options.
Proof.
  destruct (extends_run (construct options) acts) as (Hn & Hu & _).
  split; assumption.
Qed.

(** ** The fields hold a socket and the executor constructed on it *)

Lemma bound_kept (w w' : World) :
  length (sockets w') = length (sockets w) ->
  managers w' = managers w ->
  transactionManager w' = transactionManager w ->
  webSocket w' = webSocket w ->
  bound w -> bound w'.
Proof. unfold bound. intros -> -> -> ->. auto. Qed.

Lemma bound_add_listener (tm : nat) (w : World) :
  bound w -> bound (add_listener tm w).
Proof.
  intros (Hl & Ht & Hf). split; [| split]; cbn.
  - rewrite length_alter. exact Hl.
  - intros i m. destruct (decide (tm = i)) as [<-|Hne].
    + rewrite list_lookup_alter_eq.
      destruct (managers w !! tm) as [m0|] eqn:Hm; [| discriminate].
      intros [= <-]. cbn. apply (Ht tm m0 Hm).
    + rewrite list_lookup_alter_ne by assumption. apply Ht.
  - exact Hf.
Qed.

Lemma bound_connect (u : string) (w : World) :
  bound w -> bound (snd (connect u w)).
Proof.
  intros Hb. destruct (connected w) as [[ws tm]|] eqn:Hcon.
  - rewrite (connect_fast u w ws tm Hcon). exact Hb.
  - destruct (accepts u) eqn:Hacc;
      [| rewrite (connect_refused u w Hcon Hacc); exact Hb].
    rewrite (connect_slow u w Hcon Hacc). destruct Hb as (Hl & Ht & Hf).
    split; [| split]; cbn.
    + rewrite !length_app. cbn. lia.
    + intros i m Hm. apply lookup_app_Some in Hm as [Hm | [Hge Hm]].
      * apply (Ht i m Hm).
      * destruct (i - length (managers w)) as [|j] eqn:Hj; [| destruct j; discriminate].
        cbn in Hm. injection Hm as <-. cbn. lia.
    + rewrite Hl. reflexivity.
Qed.

Lemma bound_step (w : World) (a : Action) : bound w -> bound (step w a).
Proof.
  intros Hb.
  assert (Hinv : forall c d, bound (snd (invoke c d w))).
  { intros c d. unfold invoke, send_command. destruct (needs_connect w).
    - pose proof (bound_connect (wsUrl w) w Hb) as H.
      destruct (connect (wsUrl w) w) as [p w1]. exact H.
    - destruct (transactionManager w) eqn:E; cbn; exact Hb. }
  destruct a; cbn [step].
  - apply bound_connect, Hb.
  - unfold close. destruct (webSocket w) eqn:E; cbn [snd]; [| exact Hb].
    eapply bound_kept; [| | | | exact Hb]; cbn; try reflexivity.
    apply length_alter.
  - apply Hinv.
  - apply Hinv.
  - unfold resume, send_command. repeat case_match; simplify_eq; exact Hb.
  - eapply bound_kept; [| | | | exact Hb]; cbn; try reflexivity.
    apply length_alter.
  - unfold transport_open, onopen_handler, reject, resolve.
    repeat case_match; cbn [snd]; simplify_eq; try exact Hb.
    + eapply bound_kept; [| | | | apply bound_add_listener, Hb]; frame; reflexivity.
    + eapply bound_kept; [| | | | apply bound_add_listener, Hb]; frame; reflexivity.
    + eapply bound_kept; [| | | | exact Hb]; frame; reflexivity.
  - unfold transport_close. repeat case_match; try exact Hb.
    destruct Hb as (Hl & Ht & _). split; [| split]; cbn; auto.
  - unfold executor_settle. repeat case_match; exact Hb.
  - unfold executor_event. destruct (managers w !! tm); [| exact Hb].
    rewrite iter_emit. exact Hb.
Qed.

Lemma bound_run (w : World) (acts : list Action) : bound w -> bound (run w acts).
Proof.
  revert w. induction acts as [|a acts IH]; intros w Hb; [exact Hb |].
  cbn. apply IH, bound_step, Hb.
Qed.

Lemma bound_reachable (options : Options) (acts : list Action) :
  bound (run (construct options) acts).
Proof.
  apply bound_run. split; [reflexivity |]. split; [| reflexivity].
  intros i m. cbn. rewrite lookup_nil. discriminate.
Qed.

(** X2.  In a world the session can reach there are as many executors as
    sockets, distinct executors sit on distinct sockets, and whenever
    [webSocket] holds a socket, [transactionManager] holds the executor
    that was constructed on that very socket. *)
Theorem fields_hold_a_matching_pair (options : Options) (acts : list Action) :
  let w := run (construct options) acts in
  length (managers w) = length (sockets w) /\
  (forall i j mi mj,
     managers w !! i = Some mi -> managers w !! j = Some mj ->
     transport mi = transport mj -> i = j) /\
  (forall ws,
     webSocket w = Some ws ->
     exists tm m,
       transactionManager w = Some tm /\
       managers w !! tm = Some m /\
       transport m = ws /\
       is_Some (sockets w !! ws)).
Proof.
  intros w.
  destruct (bound_reachable options acts) as (Hl & Ht & Hf).
  fold w in Hl, Ht, Hf.
  assert (Hw : wf w) by apply wf_run, wf_construct.
  split; [exact Hl |]. split.
  - intros i j mi mj Hi Hj Heq.
    rewrite <- (Ht i mi Hi), <- (Ht j mj Hj). exact Heq.
  - intros ws Hws.
    pose proof (wf_webSocket w Hw ws Hws) as Hlt.
    destruct (lookup_lt_is_Some_2 (managers w) ws) as [m Hm]; [lia |].
    exists ws, m. split; [congruence |]. split; [exact Hm |].
    split; [apply (Ht ws m Hm) |]. apply lookup_lt_is_Some_2, Hlt.
Qed.

(** ** What listeners find when they are called *)

Lemma emission_ok_step (w : World) (a : Action) :
  Forall emission_ok (emitted w) -> Forall emission_ok (emitted (step w a)).
Proof.
  intros He.
  assert (Hconn : forall u, Forall emission_ok (emitted (snd (connect u w)))).
  { intros u. destruct (connected w) as [[ws tm]|] eqn:Hcon.
    - rewrite (connect_fast u w ws tm Hcon). cbn.
      apply connected_Some in Hcon as (Htm & Hws & _).
      apply Forall_snoc; [exact He |]. split; assumption.
    - destruct (accepts u) eqn:Hacc;
        [| rewrite (connect_refused u w Hcon Hacc); exact He].
      rewrite (connect_slow u w Hcon Hacc). exact He. }
  assert (Hinv : forall c d, Forall emission_ok (emitted (snd (invoke c d w)))).
  { intros c d. unfold invoke, send_command. destruct (needs_connect w).
    - pose proof (Hconn (wsUrl w)) as H.
      destruct (connect (wsUrl w) w) as [p w1]. exact H.
    - destruct (transactionManager w); exact He. }
  destruct a; cbn [step].
  - apply Hconn.
  - unfold close. destruct (webSocket w); exact He.
  - apply Hinv.
  - apply Hinv.
  - unfold resume, send_command. repeat case_match; simplify_eq; exact He.
  - exact He.
  - unfold transport_open, onopen_handler, reject, resolve.
    repeat case_match; cbn [snd]; simplify_eq; frame; try exact He;
      repeat match goal with
             | H : context [settle _ _ _] |- _ =>
                 autorewrite with frame in H; cbn in H
             end;
      repeat (apply Forall_snoc); try exact He;
      try (split; cbn; congruence);
      (split; cbn; [eauto |]; eexists; split; [reflexivity |];
       eapply bool_decide_eq_false; eassumption).
  - unfold transport_close. repeat case_match; try exact He.
    cbn. apply Forall_snoc; [exact He |]. split; reflexivity.
  - unfold executor_settle. repeat case_match; exact He.
  - unfold executor_event. destruct (managers w !! tm); [| exact He].
    rewrite iter_emit. cbn. apply Forall_app. split; [exact He |].
    apply Forall_replicate. exact I.
Qed.

Lemma emission_ok_run (w : World) (acts : list Action) :
  Forall emission_ok (emitted w) -> Forall emission_ok (emitted (run w acts)).
Proof.
  revert w. induction acts as [|a acts IH]; intros w Hw; [exact Hw |].
  cbn. apply IH, emission_ok_step, Hw.
Qed.

(** X3.  Whenever a listener of [connectionSuccess] is called, the two fields
    hold exactly the socket and executor of the payload; a listener of
    [connectionClose] finds both fields null; [connectionError] always
    carries a [{ state }] whose state is not [OPEN], and its listeners
    find a socket in [webSocket]. *)
Theorem notifications_agree_with_fields
    (options : Options) (acts : list Action) (e : Emission) :
  e ∈ emitted (run (construct options) acts) ->
  match notification e with
  | connectionSuccess ws tm =>
      seen_webSocket e = Some ws /\ seen_transactionManager e = Some tm
  | connectionError err =>
      is_Some (seen_webSocket e) /\
      exists rs, err = StateError rs /\ rs <> OPEN
  | connectionClose =>
      seen_webSocket e = None /\ seen_transactionManager e = None
  | event _ => True
  end.
Proof.
  intros Hin.
  pose proof (emission_ok_run (construct options) acts (Forall_nil_2 _)) as H.
  rewrite Forall_forall in H. apply (H e Hin).
Qed.

(** ** The commands the session sends *)

Lemma session_command_of_call (c : Call) (name : option string) (tm : nat)
    (o : Settled Reply) :
  session_command name (mkTransaction tm (command_of c) (data_of c name) o).
Proof. destruct c as [sdp | sdp]; [left | right]; cbn; eauto. Qed.

Lemma session_command_send (c : Call) (sent : list nat) (w : World) :
  Forall (session_command (streamName w)) (transactions w) ->
  Forall (session_command (streamName w))
    (transactions (snd (send_command c (data_of c (streamName w)) sent w))).
Proof.
  intros Hx. unfold send_command. destruct (transactionManager w); [| exact Hx].
  cbn. apply Forall_snoc; [exact Hx |]. apply session_command_of_call.
Qed.

Lemma session_command_step (w : World) (a : Action) :
  wf w -> tasks_ok w ->
  Forall (session_command (streamName w)) (transactions w) ->
  Forall (session_command (streamName (step w a))) (transactions (step w a)).
Proof.
  intros _ Hok Hx.
  destruct (extends_step w a) as (-> & _).
  assert (Hsame : forall w', transactions w' = transactions w ->
            Forall (session_command (streamName w)) (transactions w')).
  { intros w' ->. exact Hx. }
  assert (Hinv : forall c,
            Forall (session_command (streamName w))
              (transactions (snd (invoke c (data_of c (streamName w)) w)))).
  { intros c. unfold invoke. destruct (needs_connect w).
    - pose proof (connect_transactions (wsUrl w) w) as Ht.
      destruct (connect (wsUrl w) w) as [p w1]. cbn in *. rewrite Ht. exact Hx.
    - pose proof (session_command_send c [] w Hx) as Hs.
      destruct (send_command c (data_of c (streamName w)) [] w) as [k w1].
      exact Hs. }
  destruct a; cbn [step].
  - apply Hsame, connect_transactions.
  - apply Hsame. unfold close. destruct (webSocket w); reflexivity.
  - apply (Hinv (SubscribeCall sdp)).
  - apply (Hinv (PublishCall sdp)).
  - unfold resume.
    destruct (tasks w !! t) as [k|] eqn:Hk; [| exact Hx].
    pose proof (proj1 (Forall_lookup _ _) Hok t k Hk) as [Hd _].
    destruct (phase k) as [p | x | v | e]; try exact Hx.
    + destruct (promises w !! p) as [[| v | e]|]; try exact Hx.
      pose proof (session_command_send (call k) (issued k) w Hx) as Hs.
      rewrite <- Hd in Hs.
      destruct (send_command (call k) (payload k) (issued k) w) as [k' w1].
      exact Hs.
    + destruct (outcome <$> transactions w !! x) as [[| r | e]|]; try exact Hx.
      destruct (sdp_of r); exact Hx.
  - apply Hsame. reflexivity.
  - apply Hsame. unfold transport_open, onopen_handler, reject, resolve.
    repeat case_match; cbn [snd]; simplify_eq; frame; reflexivity.
  - apply Hsame. unfold transport_close. repeat case_match; reflexivity.
  - unfold executor_settle.
    destruct (transactions w !! x) as [[tm c d []]|] eqn:Htx; try exact Hx.
    cbn. apply Forall_insert; [exact Hx |].
    pose proof (proj1 (Forall_lookup _ _) Hx x _ Htx) as Hc. exact Hc.
  - apply Hsame. unfold executor_event. destruct (managers w !! tm); [| reflexivity].
    rewrite iter_emit. reflexivity.
Qed.

Lemma managers_grow_step (w : World) (a : Action) :
  length (managers w) <= length (managers (step w a)).
Proof. apply (extends_step w a). Qed.

Lemma executors_exist_step (w : World) (a : Action) :
  wf w -> tasks_ok w ->
  Forall (fun tx => executor tx < length (managers w)) (transactions w) ->
  Forall (fun tx => executor tx < length (managers (step w a)))
         (transactions (step w a)).
Proof.
  intros Hw _ Hx.
  pose proof (managers_grow_step w a) as Hgrow.
  assert (Hold : Forall (fun tx => executor tx < length (managers (step w a)))
                        (transactions w)).
  { eapply Forall_impl; [exact Hx |]. cbn. intros tx Htx. lia. }
  assert (Hsame : transactions (step w a) = transactions w ->
            Forall (fun tx => executor tx < length (managers (step w a)))
                   (transactions (step w a))).
  { intros ->. exact Hold. }
  assert (Hsend : forall c d sent,
            Forall (fun tx => executor tx < length (managers (step w a)))
                   (transactions (snd (send_command c d sent w)))).
  { intros c d sent. unfold send_command.
    destruct (transactionManager w) as [tm|] eqn:Htm; [| exact Hold].
    cbn. apply Forall_snoc; [exact Hold |]. cbn.
    pose proof (wf_transactionManager w Hw tm Htm). lia. }
  destruct a; cbn [step] in *.
  - apply Hsame, connect_transactions.
  - apply Hsame. unfold close. destruct (webSocket w); reflexivity.
  - unfold subscribe, invoke in *. destruct (needs_connect w).
    + pose proof (connect_transactions (wsUrl w) w) as Ht.
      destruct (connect (wsUrl w) w) as [p w1]. cbn in *. rewrite Ht. exact Hold.
    + pose proof (Hsend (SubscribeCall sdp) (ViewData sdp (streamName w)) []) as Hs.
      destruct (send_command (SubscribeCall sdp) (ViewData sdp (streamName w)) [] w)
        as [k w1]. exact Hs.
  - unfold publish, invoke in *. destruct (needs_connect w).
    + pose proof (connect_transactions (wsUrl w) w) as Ht.
      destruct (connect (wsUrl w) w) as [p w1]. cbn in *. rewrite Ht. exact Hold.
    + pose proof (Hsend (PublishCall sdp) (PublishData (streamName w) sdp "h264") [])
        as Hs.
      destruct (send_command (PublishCall sdp)
                  (PublishData (streamName w) sdp "h264") [] w) as [k w1].
      exact Hs.
  - unfold resume in *.
    destruct (tasks w !! t) as [k|]; [| exact Hold].
    destruct (phase k) as [p | x | v | e]; try exact Hold.
    + destruct (promises w !! p) as [[| v | e]|]; try exact Hold.
      pose proof (Hsend (call k) (payload k) (issued k)) as Hs.
      destruct (send_command (call k) (payload k) (issued k) w) as [k' w1].
      exact Hs.
    + destruct (outcome <$> transactions w !! x) as [[| r | e]|]; try exact Hold.
      destruct (sdp_of r); exact Hold.
  - apply Hsame. reflexivity.
  - apply Hsame. unfold transport_open, onopen_handler, reject, resolve.
    repeat case_match; cbn [snd]; simplify_eq; frame; reflexivity.
  - apply Hsame. unfold transport_close. repeat case_match; reflexivity.
  - unfold executor_settle in *.
    destruct (transactions w !! x) as [[tm c d []]|] eqn:Htx; try exact Hold.
    cbn in *. apply Forall_insert; [exact Hold |].
    apply (proj1 (Forall_lookup _ _) Hold x _ Htx).
  - apply Hsame. unfold executor_event. destruct (managers w !! tm); [| reflexivity].
    rewrite iter_emit. reflexivity.
Qed.

(** X4.  Every command an executor of the session ever receives is either
    ["view"] with payload [{ sdp, streamId: streamName }] or ["publish"]
    with payload [{ name: streamName, sdp, codec: 'h264' }], for the
    stream name given to the constructor, and was handed to an executor
    the session constructed. *)
Theorem only_view_and_publish_are_sent
    (options : Options) (acts : list Action) (x : nat) (tx : Transaction) :
  let w := run (construct options) acts in
  transactions w !! x = Some tx ->
  ((command tx = "view" /\
    exists sdp, data tx = ViewData sdp (opt_streamName options)) \/
   (command tx = "publish" /\
    exists sdp, data tx = PublishData (opt_streamName options) sdp "h264")) /\
  executor tx < length (managers w).
Proof.
  intros w Hx. split.
  - pose proof (run_invariant
                  (fun w => Forall (session_command (streamName w)) (transactions w))
                  session_command_step (construct options) acts
                  (wf_construct options) (Forall_nil_2 _) (Forall_nil_2 _)) as H.
    cbn beta in H. fold w in H.
    unfold w in H at 1. rewrite streamName_reachable in H.
    apply (proj1 (Forall_lookup _ _) H x tx Hx).
  - pose proof (run_invariant
                  (fun w => Forall (fun tx => executor tx < length (managers w))
                                   (transactions w))
                  executors_exist_step (construct options) acts
                  (wf_construct options) (Forall_nil_2 _) (Forall_nil_2 _)) as H.
    cbn beta in H. fold w in H.
    apply (proj1 (Forall_lookup _ _) H x tx Hx).
Qed.

(** ** Counting calls, commands and transports *)

Lemma step_tasks_length (w : World) (a : Action) :
  length (tasks (step w a)) =
  length (tasks w) + (if is_call a then 1 else 0).
Proof.
  assert (Hsame : forall w', tasks w' = tasks w ->
            length (tasks w') = length (tasks w) + 0).
  { intros w' ->. lia. }
  destruct a; cbn [step is_call].
  - apply Hsame, connect_tasks.
  - apply Hsame. unfold close. destruct (webSocket w); reflexivity.
  - destruct (invoke_tasks (SubscribeCall sdp) (ViewData sdp (streamName w)) w)
      as [k Hk].
    unfold subscribe. rewrite Hk, length_app. reflexivity.
  - destruct (invoke_tasks (PublishCall sdp) (PublishData (streamName w) sdp "h264") w)
      as [k Hk].
    unfold publish. rewrite Hk, length_app. reflexivity.
  - unfold resume.
    destruct (tasks w !! t) as [k|]; [| lia].
    destruct (phase k) as [p | x | v | e]; try lia.
    + destruct (promises w !! p) as [[| v | e]|]; try lia.
      * pose proof (send_command_tasks (call k) (payload k) (issued k) w) as Ht.
        destruct (send_command (call k) (payload k) (issued k) w) as [k' w1].
        cbn in *. rewrite length_insert, Ht. lia.
      * cbn. rewrite length_insert. lia.
    + destruct (outcome <$> transactions w !! x) as [[| r | e]|]; try lia.
      * destruct (sdp_of r); cbn; rewrite length_insert; lia.
      * cbn. rewrite length_insert. lia.
  - apply Hsame. reflexivity.
  - apply Hsame. unfold transport_open, onopen_handler, reject, resolve.
    repeat case_match; cbn [snd]; simplify_eq; frame; reflexivity.
  - apply Hsame. unfold transport_close. repeat case_match; reflexivity.
  - apply Hsame. unfold executor_settle. repeat case_match; reflexivity.
  - apply Hsame. unfold executor_event. destruct (managers w !! tm); [| reflexivity].
    rewrite iter_emit. reflexivity.
Qed.

Lemma run_tasks_length (w : World) (acts : list Action) :
  length (tasks (run w acts)) = length (tasks w) + length (List.filter is_call acts).
Proof.
  revert w. induction acts as [|a acts IH]; intros w; [cbn; lia |].
  cbn [run fold_left List.filter]. fold (run (step w a) acts).
  rewrite IH, step_tasks_length. destruct (is_call a); cbn; lia.
Qed.

Lemma task_ok_issued (w : World) (k : Task) :
  task_ok w k -> length (issued k) <= 1.
Proof.
  intros [_ Hph]. destruct (phase k) as [p | x | v | e].
  - rewrite Hph. cbn. lia.
  - destruct Hph as [-> _]. cbn. lia.
  - destruct Hph as (x & tm & -> & _). cbn. lia.
  - exact Hph.
Qed.

Lemma sum_list_with_le_length {A : Type} (f : A -> nat) (l : list A) :
  Forall (fun x => f x <= 1) l -> sum_list_with f l <= length l.
Proof.
  induction 1 as [|x l Hx _ IH]; simpl; lia.
Qed.

(** X5.  However the calls, the transport and the executor interleave, every
    invocation of [subscribe] or [publish] has handed at most one command
    to an executor, so the session has sent at most as many commands as
    [subscribe] and [publish] were called. *)
Theorem at_most_one_command_per_call (options : Options) (acts : list Action) :
  let w := run (construct options) acts in
  length (tasks w) = length (List.filter is_call acts) /\
  (forall t k, tasks w !! t = Some k -> length (issued k) <= 1) /\
  length (transactions w) <= length (List.filter is_call acts).
Proof.
  intros w.
  pose proof (run_tasks_length (construct options) acts) as Hlen.
  cbn in Hlen. fold w in Hlen.
  pose proof (tasks_ok_reachable options acts) as Hok. fold w in Hok.
  assert (Hone : Forall (fun k => length (issued k) <= 1) (tasks w)).
  { eapply Forall_impl; [exact Hok |]. intros k. apply task_ok_issued. }
  split; [exact Hlen |]. split.
  - intros t k Hk. apply (proj1 (Forall_lookup _ _) Hone t k Hk).
  - pose proof (commands_logged_reachable options acts) as Hlog.
    unfold commands_logged in Hlog. fold w in Hlog.
    rewrite Hlog, <- Hlen. apply sum_list_with_le_length, Hone.
Qed.

Lemma step_sockets_length (w : World) (a : Action) :
  length (sockets (step w a)) <=
  length (sockets w) + (if may_open a then 1 else 0).
Proof.
  assert (Hconn : forall u w', sockets w' = sockets (snd (connect u w)) ->
            length (sockets w') <= length (sockets w) + 1).
  { intros u w' ->. destruct (connect_sockets u w) as [-> | ->];
      rewrite ?length_app; cbn; lia. }
  assert (Hsame : forall w', length (sockets w') = length (sockets w) ->
            length (sockets w') <= length (sockets w) + 0).
  { intros w' ->. lia. }
  destruct a; cbn [step may_open].
  - eapply Hconn. reflexivity.
  - apply Hsame. unfold close. destruct (webSocket w); cbn; [apply length_alter | reflexivity].
  - unfold subscribe, invoke, send_command. destruct (needs_connect w).
    + apply (Hconn (wsUrl w)). destruct (connect (wsUrl w) w). reflexivity.
    + destruct (transactionManager w); cbn; lia.
  - unfold publish, invoke, send_command. destruct (needs_connect w).
    + apply (Hconn (wsUrl w)). destruct (connect (wsUrl w) w). reflexivity.
    + destruct (transactionManager w); cbn; lia.
  - apply Hsame. unfold resume, send_command. repeat case_match; simplify_eq; reflexivity.
  - apply Hsame. cbn. apply length_alter.
  - apply Hsame. unfold transport_open, onopen_handler, reject, resolve.
    repeat case_match; cbn [snd]; simplify_eq; frame; reflexivity.
  - apply Hsame. unfold transport_close. repeat case_match; reflexivity.
  - apply Hsame. unfold executor_settle. repeat case_match; reflexivity.
  - apply Hsame. unfold executor_event. destruct (managers w !! tm); [| reflexivity].
    rewrite iter_emit. reflexivity.
Qed.

(** X6.  Transports are opened by [connect], [subscribe] and [publish] only,
    at most one per call: no handler, continuation or [close()] opens
    one, and no action ever removes one. *)
Theorem at_most_one_transport_per_call (w : World) (acts : list Action) :
  length (sockets w) <= length (sockets (run w acts)) /\
  length (sockets (run w acts)) <=
    length (sockets w) + length (List.filter may_open acts).
Proof.
  revert w. induction acts as [|a acts IH]; intros w; [cbn; lia |].
  cbn [run fold_left List.filter]. fold (run (step w a) acts).
  destruct (IH (step w a)) as [Hlo Hhi].
  pose proof (step_sockets_length w a) as Hstep.
  assert (Hmono : length (sockets w) <= length (sockets (step w a))).
  { destruct (decide (length (sockets w) = 0)) as [-> | Hne]; [lia |].
    destruct (lookup_lt_is_Some_2 (sockets w) (length (sockets w) - 1))
      as [s Hs]; [lia |].
    destruct (step_socket_kept w a _ s Hs) as (s' & Hs' & _).
    apply lookup_lt_Some in Hs'. lia. }
  destruct (may_open a); cbn [length]; lia.
Qed.

(** ** The result of connect is final *)

Lemma settle_promise_kept (p' : nat) (s' : Settled nat) (w : World) (p : nat)
    (s : Settled nat) :
  promises w !! p = Some s -> s <> Pending ->
  promises (settle p' s' w) !! p = Some s.
Proof.
  intros Hp Hs. unfold settle.
  destruct (promises w !! p') as [[| v | e]|] eqn:Hp'; try exact Hp.
  cbn. rewrite list_lookup_insert_ne; [exact Hp |]. congruence.
Qed.

Lemma connect_promise_kept (u : string) (w : World) (p : nat) (s : Settled nat) :
  promises w !! p = Some s -> promises (snd (connect u w)) !! p = Some s.
Proof.
  intros Hp. destruct (connected w) as [[ws tm]|] eqn:Hcon.
  - rewrite (connect_fast u w ws tm Hcon). cbn. apply lookup_app_l_Some, Hp.
  - destruct (accepts u) eqn:Hacc;
      [| rewrite (connect_refused u w Hcon Hacc); cbn;
         apply lookup_app_l_Some, Hp].
    rewrite (connect_slow u w Hcon Hacc). cbn. apply lookup_app_l_Some, Hp.
Qed.

Lemma step_promise_kept (w : World) (a : Action) (p : nat) (s : Settled nat) :
  promises w !! p = Some s -> s <> Pending ->
  promises (step w a) !! p = Some s.
Proof.
  intros Hp Hs.
  assert (Hsame : forall w', promises w' = promises w ->
            promises w' !! p = Some s).
  { intros w' ->. exact Hp. }
  assert (Hinv : forall c d, promises (snd (invoke c d w)) !! p = Some s).
  { intros c d. unfold invoke, send_command. destruct (needs_connect w).
    - pose proof (connect_promise_kept (wsUrl w) w p s Hp) as H.
      destruct (connect (wsUrl w) w) as [q w1]. exact H.
    - destruct (transactionManager w); exact Hp. }
  destruct a; cbn [step].
  - apply connect_promise_kept, Hp.
  - apply Hsame. unfold close. destruct (webSocket w); reflexivity.
  - apply Hinv.
  - apply Hinv.
  - apply Hsame. unfold resume, send_command.
    repeat case_match; simplify_eq; reflexivity.
  - apply Hsame. reflexivity.
  - unfold transport_open, onopen_handler, reject, resolve.
    repeat case_match; cbn [snd]; simplify_eq; try exact Hp;
      repeat (apply settle_promise_kept; [| exact Hs]); exact Hp.
  - apply Hsame. unfold transport_close. repeat case_match; reflexivity.
  - apply Hsame. unfold executor_settle. repeat case_match; reflexivity.
  - apply Hsame. unfold executor_event. destruct (managers w !! tm); [| reflexivity].
    rewrite iter_emit. reflexivity.
Qed.

(** X7.  Once the promise returned by a [connect] is resolved or rejected,
    nothing the session, the transport or the executor does afterwards
    changes its outcome: in particular the [resolve] that [onopen] runs
    into after a [reject] does not turn the failure into a success. *)
Theorem connect_outcome_is_final
    (w : World) (acts : list Action) (p : nat) (s : Settled nat) :
  promises w !! p = Some s -> s <> Pending ->
  promises (run w acts) !! p = Some s.
Proof.
  revert w. induction acts as [|a acts IH]; intros w Hp Hs; [exact Hp |].
  cbn. apply IH; [| exact Hs]. apply step_promise_kept; assumption.
Qed.

(** ** A replaced socket is never closed by the session *)

Lemma step_closeCalls_kept (w : World) (a : Action) (ws : nat) (s : Socket) :
  sockets w !! ws = Some s ->
  webSocket w <> Some ws ->
  webSocket (step w a) <> Some ws /\
  exists s', sockets (step w a) !! ws = Some s' /\ closeCalls s' = closeCalls s.
Proof.
  intros Hs Hne.
  pose proof (lookup_lt_Some _ _ _ Hs) as Hlt.
  split.
  { destruct (step_fields w a) as [[H _] | [[H _] | (ws' & _ & H & _)]];
      rewrite H; [exact Hne | | discriminate].
    intros [= Heq]. lia. }
  assert (Hsame : forall w', sockets w' = sockets w ->
            exists s', sockets w' !! ws = Some s' /\ closeCalls s' = closeCalls s).
  { intros w' ->. eauto. }
  assert (Hconn : forall u w', sockets w' = sockets (snd (connect u w)) ->
            exists s', sockets w' !! ws = Some s' /\ closeCalls s' = closeCalls s).
  { intros u w' ->. destruct (connect_sockets u w) as [-> | ->].
    - eauto.
    - exists s. split; [apply lookup_app_l_Some, Hs | reflexivity]. }
  destruct a; cbn [step].
  - eapply Hconn. reflexivity.
  - unfold close. destruct (webSocket w) as [cur|] eqn:Hcur; cbn [snd];
      [| apply Hsame; reflexivity].
    cbn. rewrite list_lookup_alter_ne by congruence. eauto.
  - unfold subscribe, invoke, send_command. destruct (needs_connect w).
    + apply (Hconn (wsUrl w)). destruct (connect (wsUrl w) w). reflexivity.
    + destruct (transactionManager w); apply Hsame; reflexivity.
  - unfold publish, invoke, send_command. destruct (needs_connect w).
    + apply (Hconn (wsUrl w)). destruct (connect (wsUrl w) w). reflexivity.
    + destruct (transactionManager w); apply Hsame; reflexivity.
  - apply Hsame. unfold resume, send_command.
    repeat case_match; simplify_eq; reflexivity.
  - cbn. destruct (decide (ws0 = ws)) as [->|Hd].
    + rewrite list_lookup_alter_eq, Hs. cbn. eauto.
    + rewrite list_lookup_alter_ne by assumption. eauto.
  - apply Hsame. unfold transport_open, onopen_handler, reject, resolve.
    repeat case_match; cbn [snd]; simplify_eq; frame; reflexivity.
  - apply Hsame. unfold transport_close. repeat case_match; reflexivity.
  - apply Hsame. unfold executor_settle. repeat case_match; reflexivity.
  - apply Hsame. unfold executor_event. destruct (managers w !! tm); [| reflexivity].
    rewrite iter_emit. reflexivity.
Qed.

(** X8.  A socket that is no longer the one in [webSocket] (it was replaced by
    a later [connect], or the field was cleared) never comes back into
    the field, and the session never calls its [close()]: whatever
    happens afterwards, the number of [close()] calls it has received
    stays what it was. *)
Theorem replaced_socket_is_never_closed
    (w : World) (acts : list Action) (ws : nat) (s : Socket) :
  sockets w !! ws = Some s ->
  webSocket w <> Some ws ->
  webSocket (run w acts) <> Some ws /\
  exists s', sockets (run w acts) !! ws = Some s' /\ closeCalls s' = closeCalls s.
Proof.
  revert w s. induction acts as [|a acts IH]; intros w s Hs Hne.
  - split; [exact Hne | eauto].
  - cbn. destruct (step_closeCalls_kept w a ws s Hs Hne) as (Hne1 & s1 & Hs1 & Hc1).
    destruct (IH _ _ Hs1 Hne1) as (Hne2 & s2 & Hs2 & Hc2).
    split; [exact Hne2 |]. exists s2. split; [exact Hs2 | congruence].
Qed.

(** ** The open notification on a ready socket *)

(** X9.  When the socket in [webSocket] is [OPEN] and the captured promise is
    pending, [onopen] emits no [connectionError]: it registers one
    ['event'] listener on the executor in [transactionManager], emits one
    [connectionSuccess] carrying the two fields, and resolves the promise
    with the socket; the fields then satisfy the guard of [connect], so
    the next [connect] returns this socket. *)
Theorem onopen_ready_resolves (w : World) (p ws tm : nat) :
  webSocket w = Some ws ->
  transactionManager w = Some tm ->
  readyStateOf ws w = Some OPEN ->
  promises w !! p = Some Pending ->
  exists w',
    onopen_handler p w = (Normal tt, w') /\
    promises w' = <[p := Resolved ws]> (promises w) /\
    emitted w' =
      emitted w ++ [mkEmission (connectionSuccess ws tm) (Some ws) (Some tm)] /\
    managers w' =
      alter (fun m => mkManager (transport m) (S (listeners m))) tm (managers w) /\
    sockets w' = sockets w /\
    connected w' = Some (ws, tm).
Proof.
  intros Hws Htm Hrs Hp.
  unfold onopen_handler. rewrite Hws, Hrs.
  rewrite bool_decide_eq_true_2 by reflexivity. rewrite Htm.
  unfold resolve, settle. cbn. rewrite Hp.
  eexists. split; [reflexivity |]. cbn. rewrite ?Hws, ?Htm.
  split; [reflexivity |]. split; [reflexivity |]. split; [reflexivity |].
  split; [reflexivity |]. apply connected_Some. cbn. auto.
Qed.

(** ** Events of the executor *)

Lemma executor_event_closed (tm : nat) (m : Manager) (evt : ServerEvent)
    (w : World) :
  managers w !! tm = Some m ->
  executor_event tm evt w =
    set_emitted
      (emitted w ++
         replicate (listeners m)
           (mkEmission (event evt) (webSocket w) (transactionManager w))) w.
Proof. intros Hm. unfold executor_event. rewrite Hm. apply iter_emit. Qed.

(** X10.  A sequence of events emitted by an executor reaches the listeners of
    the session's ['event'] notification in the same order, each event
    unchanged and once for every listener [onopen] has registered on that
    executor; nothing else in the world changes. *)
Theorem events_are_passed_through_in_order
    (w : World) (tm : nat) (m : Manager) (evts : list ServerEvent) :
  managers w !! tm = Some m ->
  run w (ExecutorEvent tm <$> evts) =
    set_emitted
      (emitted w ++
         concat ((fun evt =>
                    replicate (listeners m)
                      (mkEmission (event evt) (webSocket w)
                                  (transactionManager w))) <$> evts)) w.
Proof.
  revert w. induction evts as [|evt evts IH]; intros w Hm.
  - cbn. rewrite app_nil_r. destruct w; reflexivity.
  - rewrite fmap_cons.
    change (run w (ExecutorEvent tm evt :: (ExecutorEvent tm <$> evts)))
      with (run (executor_event tm evt w) (ExecutorEvent tm <$> evts)).
    rewrite (executor_event_closed tm m evt w Hm).
    rewrite IH by exact Hm. rewrite fmap_cons. cbn.
    rewrite <- app_assoc. reflexivity.
Qed.

(** ** After the close notification *)

Lemma transport_open_without_socket (ws : nat) (w : World) :
  webSocket w = None -> step w (TransportOpen ws) = w.
Proof.
  intros Hws. cbn. unfold transport_open, onopen_handler. rewrite Hws.
  repeat case_match; reflexivity.
Qed.

(** X11.  After the close notification of any of its sockets the session
    is ready to connect again: the guards of [subscribe] and [publish]
    ask for a connection, and [connect] with a url the constructor
    accepts opens a new socket with a new executor and returns a pending
    promise.  With a url the constructor refuses, [connect] returns a
    promise rejected with its exception and the session stays without a
    socket. *)
Theorem reconnect_after_close_notification
    (options : Options) (acts : list Action) (ws : nat) (u : string) :
  let w := run (construct options) acts in
  ws < length (sockets w) ->
  let w1 := step w (TransportClose ws) in
  needs_connect w1 = true /\
  (accepts u = true ->
   let '(p, w2) := connect u w1 in
   p = length (promises w) /\
   promises w2 = promises w ++ [Pending] /\
   sockets w2 = sockets w ++ [mkSocket u CONNECTING (Some p) true 0] /\
   managers w2 = managers w ++ [mkManager (length (sockets w)) 0] /\
   webSocket w2 = Some (length (sockets w)) /\
   transactionManager w2 = Some (length (managers w))) /\
  (accepts u = false ->
   connect u w1 =
     (length (promises w),
      mkWorld None None (streamName w) (wsUrl w) (sockets w) (managers w)
        (promises w ++ [Rejected SyntaxError]) (transactions w) (tasks w)
        (emitted w ++ [mkEmission connectionClose None None]))).
Proof.
  intros w Hlt w1. subst w1.
  rewrite (transport_close_installed w ws) by
    (try exact Hlt; apply wf_run, wf_construct).
  split; [reflexivity |]. split; intros Hacc.
  - rewrite connect_slow by (try exact Hacc; reflexivity). cbn. repeat split.
  - rewrite connect_refused by (try exact Hacc; reflexivity). reflexivity.
Qed.

(** X12.  Between the close notification of any socket and the next [connect],
    the open notification of a socket of the session is lost: its handler
    stops on [this.webSocket.readyState] with both fields null, so the
    promise of that socket's [connect] stays as it is and nothing is
    emitted. *)
Theorem open_after_close_notification_is_lost
    (options : Options) (acts : list Action) (ws ws' p : nat) :
  let w := run (construct options) acts in
  ws < length (sockets w) ->
  let w1 := step w (TransportClose ws) in
  onopen_handler p w1 = (Abrupt TypeError, w1) /\
  step w1 (TransportOpen ws') = w1.
Proof.
  intros w Hlt w1.
  assert (Hnone : webSocket w1 = None).
  { subst w1. rewrite (transport_close_installed w ws) by
      (try exact Hlt; apply wf_run, wf_construct). reflexivity. }
  split.
  - unfold onopen_handler. rewrite Hnone. reflexivity.
  - apply transport_open_without_socket, Hnone.
Qed.

Lemma socket_close_not_open (s : Socket) : readyState (socket_close s) <> OPEN.
Proof. destruct s as [u [] o c n]; discriminate. Qed.

(** X13.  [close()] followed at once by [connect(url)], with a url the
    constructor accepts: the socket being closed is no longer [OPEN], so
    [connect] opens a second socket beside it.
    If the close notification of the first socket arrives before the
    second one opens, it clears the fields of the new connection, and the
    open notification of the second socket is then lost: the promise of
    that [connect] is still pending and no [connectionSuccess] was
    emitted. *)
Theorem close_then_connect_can_hang
    (options : Options) (acts : list Action) (u : string) (ws : nat)
    (rs : ReadyState) :
  let w := run (construct options) acts in
  webSocket w = Some ws ->
  accepts u = true ->
  let n := length (sockets w) in
  let w' := run w [Close; Connect u; TransportClose ws;
                   TransportState n rs; TransportOpen n] in
  webSocket w' = None /\
  transactionManager w' = None /\
  promises w' = promises w ++ [Pending] /\
  emitted w' = emitted w ++ [mkEmission connectionClose None None] /\
  length (sockets w') = S n.
Proof.
  intros w Hws Hacc n w'.
  assert (Hw : wf w) by apply wf_run, wf_construct.
  pose proof (wf_webSocket w Hw ws Hws) as Hlt.
  set (w1 := step w Close).
  set (w2 := step w1 (Connect u)).
  set (w3 := step w2 (TransportClose ws)).
  set (w4 := step w3 (TransportState n rs)).
  change w' with (step w4 (TransportOpen n)). clear w'.
  assert (E1 : w1 = set_sockets (alter socket_close ws (sockets w)) w).
  { subst w1. cbn. unfold close. rewrite Hws. reflexivity. }
  assert (Hcon : connected w1 = None).
  { apply connected_None. right. right. exists ws. rewrite E1. cbn.
    split; [exact Hws |]. unfold readyStateOf. cbn.
    rewrite list_lookup_alter_eq.
    destruct (sockets w !! ws) as [s|]; cbn; [| discriminate].
    intros [= H]. exact (socket_close_not_open s H). }
  assert (Hw2 : wf w2) by (subst w2 w1; apply wf_step, wf_step, Hw).
  assert (E2 : promises w2 = promises w ++ [Pending] /\
               emitted w2 = emitted w /\ length (sockets w2) = S n).
  { subst w2. cbn [step]. rewrite (connect_slow u w1 Hcon Hacc), E1. cbn.
    rewrite length_app, length_alter. cbn. repeat split. subst n. lia. }
  destruct E2 as (Hp2 & He2 & Hl2).
  assert (E3 : w3 = mkWorld None None (streamName w2) (wsUrl w2) (sockets w2)
                 (managers w2) (promises w2) (transactions w2) (tasks w2)
                 (emitted w2 ++ [mkEmission connectionClose None None])).
  { subst w3. apply transport_close_installed; [exact Hw2 |]. lia. }
  assert (E4 : w4 = set_sockets
                 (alter (fun s => mkSocket (url s) rs (onopen s) (onclose s)
                                           (closeCalls s)) n (sockets w3)) w3).
  { reflexivity. }
  clearbody w4 w3 w2 w1.
  rewrite transport_open_without_socket by (rewrite E4, E3; reflexivity).
  rewrite E4, E3. cbn. rewrite length_alter, Hp2, He2, Hl2.
  repeat split.
Qed.

(** ** subscribe and publish from call to return *)

Lemma lookup_snoc_end {A : Type} (l : list A) (x : A) :
  (l ++ [x]) !! length l = Some x.
Proof. rewrite lookup_app_r by lia. rewrite Nat.sub_diag. reflexivity. Qed.

Lemma alter_snoc_end {A : Type} (f : A -> A) (l : list A) (x : A) :
  alter f (length l) (l ++ [x]) = l ++ [f x].
Proof.
  induction l as [|a l IH]; [reflexivity |].
  cbn [length app]. change (alter f (S (length l)) (a :: (l ++ [x])))
    with (a :: alter f (length l) (l ++ [x])). rewrite IH. reflexivity.
Qed.

Lemma insert_snoc_end {A : Type} (l : list A) (x y : A) :
  <[length l := y]> (l ++ [x]) = l ++ [y].
Proof. rewrite insert_app_r_alt by lia. rewrite Nat.sub_diag. reflexivity. Qed.

(** X14.  On a session whose socket is [OPEN], [subscribe] and [publish] do not
    call [connect]: no socket, executor or promise is created and nothing
    is emitted; the command goes at once to the executor constructed on
    the open socket, and the invocation is suspended on it. *)
Theorem invocation_on_open_session_sends_at_once
    (options : Options) (acts : list Action) (sdp : string) (ws : nat) :
  let w := run (construct options) acts in
  webSocket w = Some ws ->
  readyStateOf ws w = Some OPEN ->
  exists tm m,
    transactionManager w = Some tm /\
    managers w !! tm = Some m /\
    transport m = ws /\
    subscribe sdp w =
      (length (tasks w),
       set_tasks
         (tasks w ++
            [mkTask (SubscribeCall sdp) (ViewData sdp (opt_streamName options))
                    [length (transactions w)]
                    (AwaitCmd (length (transactions w)))])
         (set_transactions
            (transactions w ++
               [mkTransaction tm "view"
                  (ViewData sdp (opt_streamName options)) Pending]) w)) /\
    publish sdp w =
      (length (tasks w),
       set_tasks
         (tasks w ++
            [mkTask (PublishCall sdp)
                    (PublishData (opt_streamName options) sdp "h264")
                    [length (transactions w)]
                    (AwaitCmd (length (transactions w)))])
         (set_transactions
            (transactions w ++
               [mkTransaction tm "publish"
                  (PublishData (opt_streamName options) sdp "h264") Pending]) w)).
Proof.
  intros w Hws Hrs.
  destruct (bound_reachable options acts) as (Hl & Ht & Hf). fold w in Hl, Ht, Hf.
  assert (Hw : wf w) by apply wf_run, wf_construct.
  pose proof (wf_webSocket w Hw ws Hws) as Hlt.
  assert (Htm : transactionManager w = Some ws) by congruence.
  destruct (lookup_lt_is_Some_2 (managers w) ws) as [m Hm]; [lia |].
  assert (Hn : needs_connect w = false).
  { unfold needs_connect. rewrite Hws, bool_decide_eq_true_2 by exact Hrs.
    reflexivity. }
  exists ws, m. split; [exact Htm |]. split; [exact Hm |].
  split; [apply (Ht ws m Hm) |].
  assert (Hname : streamName w = opt_streamName options)
    by apply streamName_reachable.
  unfold subscribe, publish, invoke, send_command. rewrite Hn, Htm, Hname.
  split; reflexivity.
Qed.

(** X15.  On a session without a socket and with a [wsUrl] the constructor
    accepts, a call of [subscribe] or [publish] completes once the
    transport and the executor have done their part:
    the call opens a socket on [wsUrl]; when that socket is [OPEN] and its
    open notification has run, the continuation sends the one command to
    the new executor; when the executor resolves it with an object whose
    [sdp] is [v], the continuation returns [v].  One [connectionSuccess]
    is emitted on the way. *)
Theorem invocation_on_closed_session_returns
    (w : World) (c : Call) (v : option string) :
  webSocket w = None ->
  accepts (wsUrl w) = true ->
  let n := length (sockets w) in
  let m := length (managers w) in
  let t := length (tasks w) in
  let x := length (transactions w) in
  let w' := run w [call_action c; TransportState n OPEN; TransportOpen n;
                   Resume t;
                   ExecutorSettle x (Resolved (ReplyObject v)); Resume t] in
  tasks w' = tasks w ++ [mkTask c (data_of c (streamName w)) [x] (Returned v)] /\
  transactions w' =
    transactions w ++
      [mkTransaction m (command_of c) (data_of c (streamName w))
                     (Resolved (ReplyObject v))] /\
  sockets w' =
    sockets w ++ [mkSocket (wsUrl w) OPEN (Some (length (promises w))) true 0] /\
  promises w' = promises w ++ [Resolved n] /\
  emitted w' =
    emitted w ++ [mkEmission (connectionSuccess n m) (Some n) (Some m)] /\
  webSocket w' = Some n /\ transactionManager w' = Some m.
Proof.
  intros Hws Hacc n m t x w'.
  assert (Hcon : connected w = None).
  { apply connected_None. auto. }
  assert (Hneed : needs_connect w = true).
  { apply needs_connect_true. auto. }
  set (d := data_of c (streamName w)).
  set (p := length (promises w)).
  (* the call *)
  assert (E1 : step w (call_action c) =
               mkWorld (Some n) (Some m) (streamName w) (wsUrl w)
                 (sockets w ++ [mkSocket (wsUrl w) CONNECTING (Some p) true 0])
                 (managers w ++ [mkManager n 0])
                 (promises w ++ [Pending])
                 (transactions w)
                 (tasks w ++ [mkTask c d [] (AwaitConnect p)])
                 (emitted w)).
  { destruct c as [sdp | sdp]; cbn [call_action step];
      unfold subscribe, publish, invoke; rewrite Hneed;
      rewrite (connect_slow (wsUrl w) w Hcon Hacc); reflexivity. }
  (* the socket becomes OPEN *)
  set (w1 := step w (call_action c)) in *.
  assert (E2 : step w1 (TransportState n OPEN) =
               mkWorld (Some n) (Some m) (streamName w) (wsUrl w)
                 (sockets w ++ [mkSocket (wsUrl w) OPEN (Some p) true 0])
                 (managers w ++ [mkManager n 0])
                 (promises w ++ [Pending])
                 (transactions w)
                 (tasks w ++ [mkTask c d [] (AwaitConnect p)])
                 (emitted w)).
  { rewrite E1. cbn. unfold transport_state. cbn.
    subst n. rewrite alter_snoc_end. reflexivity. }
  (* its open notification *)
  set (w2 := step w1 (TransportState n OPEN)) in *.
  assert (E3 : step w2 (TransportOpen n) =
               mkWorld (Some n) (Some m) (streamName w) (wsUrl w)
                 (sockets w ++ [mkSocket (wsUrl w) OPEN (Some p) true 0])
                 (managers w ++ [mkManager n 1])
                 (promises w ++ [Resolved n])
                 (transactions w)
                 (tasks w ++ [mkTask c d [] (AwaitConnect p)])
                 (emitted w ++
                    [mkEmission (connectionSuccess n m) (Some n) (Some m)])).
  { rewrite E2. cbn. unfold transport_open. cbn.
    subst n. rewrite lookup_snoc_end. cbn.
    unfold onopen_handler, readyStateOf. cbn.
    rewrite lookup_snoc_end. cbn.
    rewrite bool_decide_eq_true_2 by reflexivity. cbn.
    unfold resolve, settle. cbn. subst p. rewrite lookup_snoc_end. cbn.
    subst m. unfold add_listener, emit. cbn.
    rewrite alter_snoc_end, insert_snoc_end. reflexivity. }
  (* the continuation sends the command *)
  set (w3 := step w2 (TransportOpen n)) in *.
  assert (E4 : step w3 (Resume t) =
               mkWorld (Some n) (Some m) (streamName w) (wsUrl w)
                 (sockets w ++ [mkSocket (wsUrl w) OPEN (Some p) true 0])
                 (managers w ++ [mkManager n 1])
                 (promises w ++ [Resolved n])
                 (transactions w ++ [mkTransaction m (command_of c) d Pending])
                 (tasks w ++ [mkTask c d [x] (AwaitCmd x)])
                 (emitted w ++
                    [mkEmission (connectionSuccess n m) (Some n) (Some m)])).
  { rewrite E3. cbn. unfold resume. cbn.
    subst t. rewrite lookup_snoc_end. cbn.
    subst p. rewrite lookup_snoc_end. cbn.
    rewrite insert_snoc_end. reflexivity. }
  (* the executor answers *)
  set (w4 := step w3 (Resume t)) in *.
  assert (E5 : step w4 (ExecutorSettle x (Resolved (ReplyObject v))) =
               mkWorld (Some n) (Some m) (streamName w) (wsUrl w)
                 (sockets w ++ [mkSocket (wsUrl w) OPEN (Some p) true 0])
                 (managers w ++ [mkManager n 1])
                 (promises w ++ [Resolved n])
                 (transactions w ++
                    [mkTransaction m (command_of c) d (Resolved (ReplyObject v))])
                 (tasks w ++ [mkTask c d [x] (AwaitCmd x)])
                 (emitted w ++
                    [mkEmission (connectionSuccess n m) (Some n) (Some m)])).
  { rewrite E4. cbn. unfold executor_settle. cbn.
    subst x. rewrite lookup_snoc_end. cbn.
    rewrite insert_snoc_end. reflexivity. }
  (* the continuation returns *)
  set (w5 := step w4 (ExecutorSettle x (Resolved (ReplyObject v)))) in *.
  assert (E6 : step w5 (Resume t) =
               mkWorld (Some n) (Some m) (streamName w) (wsUrl w)
                 (sockets w ++ [mkSocket (wsUrl w) OPEN (Some p) true 0])
                 (managers w ++ [mkManager n 1])
                 (promises w ++ [Resolved n])
                 (transactions w ++
                    [mkTransaction m (command_of c) d (Resolved (ReplyObject v))])
                 (tasks w ++ [mkTask c d [x] (Returned v)])
                 (emitted w ++
                    [mkEmission (connectionSuccess n m) (Some n) (Some m)])).
  { rewrite E5. cbn. unfold resume. cbn.
    subst t. rewrite lookup_snoc_end. cbn.
    subst x. rewrite lookup_snoc_end. cbn.
    rewrite insert_snoc_end. reflexivity. }
  change w' with (step w5 (Resume t)). rewrite E6. cbn. repeat split.
Qed.

(** X16.  When [webSocket] is null or not [OPEN] and the constructor
    refuses [wsUrl], a call of [subscribe] or [publish] fails with the
    constructor's exception as soon as its continuation runs: no socket
    or executor is constructed, no command is sent, nothing is emitted and
    the fields keep what they held. *)
Theorem invocation_with_refused_url_throws (w : World) (c : Call) :
  webSocket w = None \/
  (exists ws, webSocket w = Some ws /\ readyStateOf ws w <> Some OPEN) ->
  accepts (wsUrl w) = false ->
  run w [call_action c; Resume (length (tasks w))] =
    mkWorld (webSocket w) (transactionManager w) (streamName w) (wsUrl w)
      (sockets w) (managers w) (promises w ++ [Rejected SyntaxError])
      (transactions w)
      (tasks w ++ [mkTask c (data_of c (streamName w)) [] (Threw SyntaxError)])
      (emitted w).
Proof.
  intros Hneed Hacc.
  assert (Hn : needs_connect w = true) by (apply needs_connect_true, Hneed).
  pose proof (needs_connect_connected w Hn) as Hcon.
  assert (E1 : step w (call_action c) =
               mkWorld (webSocket w) (transactionManager w) (streamName w)
                 (wsUrl w) (sockets w) (managers w)
                 (promises w ++ [Rejected SyntaxError]) (transactions w)
                 (tasks w ++ [mkTask c (data_of c (streamName w)) []
                                     (AwaitConnect (length (promises w)))])
                 (emitted w)).
  { destruct c as [sdp | sdp]; cbn [call_action step];
      unfold subscribe, publish, invoke; rewrite Hn;
      rewrite (connect_refused (wsUrl w) w Hcon Hacc); reflexivity. }
  change (run w [call_action c; Resume (length (tasks w))])
    with (step (step w (call_action c)) (Resume (length (tasks w)))).
  rewrite E1. cbn [step]. unfold resume. cbn.
  rewrite lookup_snoc_end. cbn. rewrite lookup_snoc_end.
  unfold set_tasks, finish. cbn. rewrite insert_snoc_end. reflexivity.
Qed.

End Properties.

(** * The theorems at work in the scenarios *)

Section Instances.

#[local] Existing Instance browser.

Lemma connect_open_returns_existing_witness :
  promises (snd (connect "ws://host/ws" opened)) !! 1 = Some (Resolved 0) /\
  sockets (snd (connect "ws://host/ws" opened)) = sockets opened.
Proof.
  pose proof (connect_open_returns_existing opened "ws://host/ws" "ws://host/ws" 0 0
                eq_refl eq_refl eq_refl) as H.
  cbv in H. cbv. tauto.
Defined.

Lemma onopen_not_ready_error_then_success_witness :
  notification <$> emitted (step closing_at_open (TransportOpen 0)) =
    [connectionError (StateError CLOSING); connectionSuccess 0 0] /\
  promises (step closing_at_open (TransportOpen 0)) !! 0 =
    Some (Rejected (StateError CLOSING)).
Proof.
  destruct (onopen_not_ready_error_then_success closing_at_open 0 0 0 CLOSING
              eq_refl eq_refl eq_refl ltac:(discriminate) eq_refl)
    as (w' & Hrun & Hp & He).
  change (step closing_at_open (TransportOpen 0))
    with (snd (onopen_handler 0 closing_at_open)).
  rewrite Hrun. cbn [snd]. rewrite He. split; [reflexivity | exact Hp].
Defined.

(** The same with a real transport: a second [connect] replaces the
    socket while the first is still connecting; when the first socket
    opens, its handler reads the readiness state of the second one. *)
Example onopen_after_second_connect :
  let w := run (construct cam1)
             [Connect "ws://host/ws"; Connect "ws://host/ws";
              TransportState 0 OPEN; TransportOpen 0] in
  notification <$> emitted w =
    [connectionError (StateError CONNECTING); connectionSuccess 1 1] /\
  promises w = [Rejected (StateError CONNECTING); Pending].
Proof. split; reflexivity. Qed.

Lemma connect_while_connecting_opens_transport_witness :
  sockets (snd (connect "ws://host/ws" connecting)) =
    [mkSocket "ws://host/ws" CONNECTING (Some 0) true 0;
     mkSocket "ws://host/ws" CONNECTING (Some 1) true 0].
Proof.
  assert (Hws : webSocket connecting = Some 0) by (vm_compute; reflexivity).
  assert (Hrs : readyStateOf 0 connecting <> Some OPEN)
    by (vm_compute; discriminate).
  assert (Hacc : accepts "ws://host/ws" = true) by (vm_compute; reflexivity).
  destruct (connect_while_connecting_opens_transport connecting "ws://host/ws" 0)
    as [H _].
  specialize (H Hws Hrs Hacc).
  destruct (connect "ws://host/ws" connecting) as [p w1].
  destruct H as (Hp & _ & Hs & _). cbn [snd]. rewrite Hs, Hp.
  vm_compute. reflexivity.
Defined.

(** The first [connect] is still connecting when the second is made, and
    the second opens a transport of its own. *)
Lemma second_connect_opens_second_transport :
  webSocket connecting = Some 0 /\
  readyStateOf 0 connecting = Some CONNECTING /\
  promises connecting = [Pending] /\
  length (sockets connecting) = 1 /\
  length (sockets (snd (connect "ws://host/ws" connecting))) = 2 /\
  sockets (snd (connect "ws://host/ws" connecting)) <> sockets connecting /\
  promises (snd (connect "ws://host/ws" connecting)) = [Pending; Pending].
Proof. repeat split. discriminate. Qed.

Lemma transport_close_resets_session_witness :
  webSocket (step opened (TransportClose 0)) = None /\
  transactionManager (step opened (TransportClose 0)) = None /\
  notification <$> emitted (step opened (TransportClose 0)) =
    [connectionSuccess 0 0; connectionClose].
Proof.
  assert (Hlt : 0 < length (sockets (run (construct cam1)
                  [Connect "ws://host/ws"; TransportState 0 OPEN; TransportOpen 0])))
    by (vm_compute; lia).
  pose proof (transport_close_resets_session cam1
                [Connect "ws://host/ws"; TransportState 0 OPEN; TransportOpen 0] 0
                Hlt) as H.
  cbv zeta in H. destruct H as (H1 & H2 & H3 & _).
  split; [exact H1 |]. split; [exact H2 |].
  unfold opened. rewrite H3. vm_compute. reflexivity.
Defined.

Lemma close_requests_transport_close_witness :
  (snd (close opened) =
     set_sockets [mkSocket "ws://host/ws" CLOSING (Some 0) true 1] opened) /\
  snd (close (construct cam1)) = construct cam1.
Proof.
  split.
  - destruct (close_requests_transport_close opened)
      as (w' & Hc & _ & _ & _ & Hsome & _).
    rewrite Hc. cbn [snd]. apply (Hsome 0 eq_refl).
  - destruct (close_requests_transport_close (construct cam1))
      as (w' & Hc & _ & _ & _ & _ & Hnone).
    rewrite Hc. cbn [snd]. apply Hnone. reflexivity.
Defined.

Lemma stale_onclose_clears_new_connection_witness :
  webSocket (snd (connect "ws://host/ws" connecting)) = Some 1 /\
  closeCalls <$> sockets (snd (connect "ws://host/ws" connecting)) !! 0 = Some 0 /\
  webSocket (step (snd (connect "ws://host/ws" connecting)) (TransportClose 0))
    = None /\
  transactionManager
    (step (snd (connect "ws://host/ws" connecting)) (TransportClose 0)) = None /\
  webSocket (snd (connect "ws://host/ws#frag" connecting)) = Some 0.
Proof.
  assert (Hws : webSocket (run (construct cam1) [Connect "ws://host/ws"]) = Some 0)
    by (vm_compute; reflexivity).
  assert (Hrs : readyStateOf 0 (run (construct cam1) [Connect "ws://host/ws"])
                <> Some OPEN) by (vm_compute; discriminate).
  assert (Hacc : accepts "ws://host/ws" = true) by (vm_compute; reflexivity).
  assert (Href : accepts "ws://host/ws#frag" = false) by (vm_compute; reflexivity).
  destruct (stale_onclose_clears_new_connection cam1 [Connect "ws://host/ws"]
              "ws://host/ws" 0 Hws (or_intror Hrs)) as [H _].
  destruct (stale_onclose_clears_new_connection cam1 [Connect "ws://host/ws"]
              "ws://host/ws#frag" 0 Hws (or_intror Hrs)) as [_ H'].
  specialize (H Hacc). specialize (H' Href).
  assert (E : run (construct cam1) [Connect "ws://host/ws"] = connecting)
    by reflexivity.
  rewrite E in H, H', Hws. clear E.
  destruct (connect "ws://host/ws" connecting) as [p w1].
  destruct H as (s & Hs & _ & _ & Hfield & _ & _ & Hs1 & _ & Hlater).
  destruct (Hlater []) as (H1 & H2 & _).
  cbn [snd]. split; [exact Hfield |]. split.
  { rewrite Hs1. vm_compute in Hs. injection Hs as <-. reflexivity. }
  split; [exact H1 |]. split; [exact H2 |].
  rewrite H'. reflexivity.
Defined.

(** The same replaced-socket situation with a url the constructor
    refuses: nothing is constructed and the fields keep the socket and
    executor they held. *)
Lemma connect_refused_url_keeps_previous_socket :
  webSocket connecting = Some 0 /\
  readyStateOf 0 connecting = Some CONNECTING /\
  webSocket (snd (connect "ws://host/ws#frag" connecting)) = Some 0 /\
  transactionManager (snd (connect "ws://host/ws#frag" connecting)) = Some 0 /\
  sockets (snd (connect "ws://host/ws#frag" connecting)) = sockets connecting /\
  managers (snd (connect "ws://host/ws#frag" connecting)) = managers connecting /\
  promises (snd (connect "ws://host/ws#frag" connecting)) =
    [Pending; Rejected SyntaxError].
Proof. vm_compute. repeat split. Qed.

Lemma subscribe_returns_view_answer_witness :
  exists x tm,
    [0] = [x] /\
    tm < length (managers subscribed) /\
    transactions subscribed !! x =
      Some (mkTransaction tm "view" (ViewData "offer-sdp-1" (Some "cam1"))
                          (Resolved (ReplyObject (Some "answer-sdp-1")))).
Proof.
  exact (subscribe_returns_view_answer cam1
           [Subscribe "offer-sdp-1"; TransportState 0 OPEN; TransportOpen 0;
            Resume 0;
            ExecutorSettle 0 (Resolved (ReplyObject (Some "answer-sdp-1")));
            Resume 0]
           0
           (mkTask (SubscribeCall "offer-sdp-1")
                   (ViewData "offer-sdp-1" (Some "cam1")) [0]
                   (Returned (Some "answer-sdp-1")))
           "offer-sdp-1" (Some "answer-sdp-1") eq_refl eq_refl eq_refl).
Defined.

Lemma publish_returns_publish_answer_witness :
  exists x tm,
    [0] = [x] /\
    tm < length (managers published) /\
    transactions published !! x =
      Some (mkTransaction tm "publish"
                          (PublishData (Some "cam1") "offer-sdp-2" "h264")
                          (Resolved (ReplyObject (Some "answer-sdp-2")))).
Proof.
  exact (publish_returns_publish_answer cam1
           [Publish "offer-sdp-2"; TransportState 0 OPEN; TransportOpen 0;
            Resume 0;
            ExecutorSettle 0 (Resolved (ReplyObject (Some "answer-sdp-2")));
            Resume 0]
           0
           (mkTask (PublishCall "offer-sdp-2")
                   (PublishData (Some "cam1") "offer-sdp-2" "h264") [0]
                   (Returned (Some "answer-sdp-2")))
           "offer-sdp-2" (Some "answer-sdp-2") eq_refl eq_refl eq_refl).
Defined.

Lemma invocation_connects_first_and_rethrows_witness :
  (url <$> sockets (snd (subscribe "offer-sdp-1" (construct cam1)))) =
    ["ws://host/ws"] /\
  transactions (snd (subscribe "offer-sdp-1" (construct cam1))) = [] /\
  tasks (resume 0 refused) =
    [mkTask (SubscribeCall "offer-sdp-1")
            (ViewData "offer-sdp-1" (Some "cam1")) []
            (Threw (StateError CLOSING))] /\
  transactions (resume 0 refused) = [] /\
  transactions
    (resume 0 (run (construct cam1)
                 [Subscribe "offer-sdp-1"; TransportState 0 OPEN; TransportOpen 0]))
    = [mkTransaction 0 "view" (ViewData "offer-sdp-1" (Some "cam1")) Pending].
Proof.
  assert (Hacc : accepts (wsUrl (construct cam1)) = true)
    by (vm_compute; reflexivity).
  assert (Hnull : webSocket (construct cam1) = None) by reflexivity.
  pose (k0 := mkTask (SubscribeCall "offer-sdp-1")
                (ViewData "offer-sdp-1" (Some "cam1")) [] (AwaitConnect 0)).
  destruct (invocation_connects_first_and_rethrows (construct cam1)
              "offer-sdp-1" 0 k0) as [Hcall _].
  destruct (Hcall (or_introl Hnull)) as [Hopen _].
  destruct (Hopen Hacc) as [Hsub _]. clear Hcall Hopen.
  rewrite Hsub. split; [reflexivity |]. split; [reflexivity |].
  assert (Hk : tasks refused !! 0 = Some k0) by (vm_compute; reflexivity).
  assert (Hp : promises refused !! 0 = Some (Rejected (StateError CLOSING)))
    by (vm_compute; reflexivity).
  destruct (invocation_connects_first_and_rethrows refused "offer-sdp-1" 0 k0)
    as [_ Hres].
  destruct (Hres Hk) as (Hconn & _ & _).
  destruct (Hconn 0 eq_refl) as (_ & _ & Hrej).
  rewrite (Hrej (StateError CLOSING) Hp). clear Hres Hconn Hrej.
  split; [vm_compute; reflexivity |]. split; [vm_compute; reflexivity |].
  set (ready := run (construct cam1)
                  [Subscribe "offer-sdp-1"; TransportState 0 OPEN; TransportOpen 0]).
  assert (Hk' : tasks ready !! 0 = Some k0) by (vm_compute; reflexivity).
  assert (Hp' : promises ready !! 0 = Some (Resolved 0))
    by (vm_compute; reflexivity).
  assert (Htm : transactionManager ready = Some 0) by (vm_compute; reflexivity).
  destruct (invocation_connects_first_and_rethrows ready "offer-sdp-1" 0 k0)
    as [_ Hres].
  destruct (Hres Hk') as (Hconn & _ & _).
  destruct (Hconn 0 eq_refl) as (_ & Hok & _).
  rewrite (Hok 0 0 Hp' Htm). vm_compute. reflexivity.
Defined.

Lemma fields_hold_a_matching_pair_witness :
  length (managers opened) = length (sockets opened) /\
  exists tm m,
    transactionManager opened = Some tm /\
    managers opened !! tm = Some m /\
    transport m = 0.
Proof.
  assert (Hws : webSocket (run (construct cam1)
                  [Connect "ws://host/ws"; TransportState 0 OPEN; TransportOpen 0])
                = Some 0) by (vm_compute; reflexivity).
  destruct (fields_hold_a_matching_pair cam1
              [Connect "ws://host/ws"; TransportState 0 OPEN; TransportOpen 0])
    as (Hlen & _ & Hpair).
  destruct (Hpair 0 Hws) as (tm & m & H1 & H2 & H3 & _).
  unfold opened. split; [exact Hlen |]. exists tm, m. auto.
Defined.

Lemma notifications_agree_with_fields_witness :
  seen_webSocket (mkEmission (connectionSuccess 0 0) (Some 0) (Some 0)) = Some 0 /\
  seen_transactionManager (mkEmission (connectionSuccess 0 0) (Some 0) (Some 0))
    = Some 0.
Proof.
  assert (Hin : mkEmission (connectionSuccess 0 0) (Some 0) (Some 0)
                ∈ emitted (run (construct cam1)
                     [Connect "ws://host/ws"; TransportState 0 OPEN; TransportOpen 0])).
  { vm_compute. constructor. }
  exact (notifications_agree_with_fields cam1
           [Connect "ws://host/ws"; TransportState 0 OPEN; TransportOpen 0]
           (mkEmission (connectionSuccess 0 0) (Some 0) (Some 0)) Hin).
Defined.

Lemma only_view_and_publish_are_sent_witness :
  "view" = "view" /\
  exists sdp, ViewData "offer-sdp-1" (Some "cam1") = ViewData sdp (Some "cam1").
Proof.
  assert (Hx : transactions
                 (run (construct cam1)
                    [Subscribe "offer-sdp-1"; TransportState 0 OPEN;
                     TransportOpen 0; Resume 0]) !! 0 =
               Some (mkTransaction 0 "view"
                       (ViewData "offer-sdp-1" (Some "cam1")) Pending))
    by (vm_compute; reflexivity).
  destruct (only_view_and_publish_are_sent cam1
              [Subscribe "offer-sdp-1"; TransportState 0 OPEN; TransportOpen 0;
               Resume 0] 0
              (mkTransaction 0 "view" (ViewData "offer-sdp-1" (Some "cam1")) Pending)
              Hx) as [[H | [H _]] _].
  - exact H.
  - discriminate H.
Defined.

Lemma connect_outcome_is_final_witness :
  promises (run refused [TransportState 0 OPEN; TransportOpen 0; Resume 0]) !! 0 =
    Some (Rejected (StateError CLOSING)).
Proof.
  assert (Hp : promises refused !! 0 = Some (Rejected (StateError CLOSING)))
    by (vm_compute; reflexivity).
  apply (connect_outcome_is_final refused
           [TransportState 0 OPEN; TransportOpen 0; Resume 0] 0
           (Rejected (StateError CLOSING)) Hp).
  discriminate.
Defined.

Lemma replaced_socket_is_never_closed_witness :
  exists s',
    sockets (run (snd (connect "ws://host/ws" connecting))
                 [Close; TransportState 1 OPEN; TransportOpen 1; Close]) !! 0
      = Some s' /\
    closeCalls s' = 0.
Proof.
  assert (Hs : sockets (snd (connect "ws://host/ws" connecting)) !! 0 =
               Some (mkSocket "ws://host/ws" CONNECTING (Some 0) true 0))
    by (vm_compute; reflexivity).
  assert (Hne : webSocket (snd (connect "ws://host/ws" connecting)) <> Some 0)
    by (vm_compute; discriminate).
  destruct (replaced_socket_is_never_closed
              (snd (connect "ws://host/ws" connecting))
              [Close; TransportState 1 OPEN; TransportOpen 1; Close] 0
              (mkSocket "ws://host/ws" CONNECTING (Some 0) true 0)
              Hs Hne) as (_ & s' & Hs' & Hc).
  exists s'. split; [exact Hs' | exact Hc].
Defined.

Lemma onopen_ready_resolves_witness :
  promises (snd (onopen_handler 0 opening)) = [Resolved 0] /\
  notification <$> emitted (snd (onopen_handler 0 opening)) =
    [connectionSuccess 0 0] /\
  listeners <$> managers (snd (onopen_handler 0 opening)) = [1].
Proof.
  assert (Hws : webSocket opening = Some 0) by (vm_compute; reflexivity).
  assert (Htm : transactionManager opening = Some 0) by (vm_compute; reflexivity).
  assert (Hrs : readyStateOf 0 opening = Some OPEN) by (vm_compute; reflexivity).
  assert (Hpe : promises opening !! 0 = Some Pending) by (vm_compute; reflexivity).
  destruct (onopen_ready_resolves opening 0 0 0 Hws Htm Hrs Hpe)
    as (w' & Hrun & Hp & He & Hm & _).
  rewrite Hrun. cbn [snd]. rewrite Hp, He, Hm.
  split; [vm_compute; reflexivity |]. split; vm_compute; reflexivity.
Defined.

Lemma events_are_passed_through_in_order_witness :
  notification <$>
    emitted (run opened [ExecutorEvent 0 (mkServerEvent "active" "1");
                         ExecutorEvent 0 (mkServerEvent "inactive" "2")]) =
    [connectionSuccess 0 0;
     event (mkServerEvent "active" "1"); event (mkServerEvent "inactive" "2")].
Proof.
  assert (Hm : managers opened !! 0 = Some (mkManager 0 1))
    by (vm_compute; reflexivity).
  pose proof (events_are_passed_through_in_order opened 0 (mkManager 0 1)
                [mkServerEvent "active" "1"; mkServerEvent "inactive" "2"]
                Hm) as H.
  cbn [fmap list_fmap] in H. rewrite H. vm_compute. reflexivity.
Defined.

Lemma reconnect_after_close_notification_witness :
  sockets (snd (connect "ws://host/ws" (step opened (TransportClose 0)))) =
    [mkSocket "ws://host/ws" OPEN (Some 0) true 0;
     mkSocket "ws://host/ws" CONNECTING (Some 1) true 0].
Proof.
  assert (Hlt : 0 < length (sockets (run (construct cam1)
                  [Connect "ws://host/ws"; TransportState 0 OPEN; TransportOpen 0])))
    by (vm_compute; lia).
  assert (Hacc : accepts "ws://host/ws" = true) by (vm_compute; reflexivity).
  pose proof (reconnect_after_close_notification cam1
                [Connect "ws://host/ws"; TransportState 0 OPEN; TransportOpen 0]
                0 "ws://host/ws" Hlt) as H.
  cbv zeta in H. destruct H as (_ & H & _). specialize (H Hacc). unfold opened.
  destruct (connect "ws://host/ws" _) as [p w2].
  destruct H as (Hp & _ & Hs & _). cbn [snd]. rewrite Hs, Hp.
  vm_compute. reflexivity.
Defined.

Lemma open_after_close_notification_is_lost_witness :
  step (step (run (construct cam1)
                [Connect "ws://host/ws"; Connect "ws://host/ws";
                 TransportState 1 OPEN])
             (TransportClose 0))
       (TransportOpen 1) =
  step (run (construct cam1)
          [Connect "ws://host/ws"; Connect "ws://host/ws"; TransportState 1 OPEN])
       (TransportClose 0).
Proof.
  assert (Hlt : 0 < length (sockets (run (construct cam1)
                  [Connect "ws://host/ws"; Connect "ws://host/ws";
                   TransportState 1 OPEN]))) by (vm_compute; lia).
  destruct (open_after_close_notification_is_lost cam1
              [Connect "ws://host/ws"; Connect "ws://host/ws";
               TransportState 1 OPEN]
              0 1 1 Hlt) as [_ H].
  exact H.
Defined.

Lemma close_then_connect_can_hang_witness :
  let w := run (construct cam1)
             [Connect "ws://host/ws"; TransportState 0 OPEN; TransportOpen 0] in
  let w' := run w [Close; Connect "ws://host/ws"; TransportClose 0;
                   TransportState (length (sockets w)) OPEN;
                   TransportOpen (length (sockets w))] in
  webSocket w' = None /\ promises w' = [Resolved 0; Pending].
Proof.
  assert (Hws : webSocket (run (construct cam1)
                  [Connect "ws://host/ws"; TransportState 0 OPEN; TransportOpen 0])
                = Some 0) by (vm_compute; reflexivity).
  assert (Hacc : accepts "ws://host/ws" = true) by (vm_compute; reflexivity).
  pose proof (close_then_connect_can_hang cam1
                [Connect "ws://host/ws"; TransportState 0 OPEN; TransportOpen 0]
                "ws://host/ws" 0 OPEN Hws Hacc) as H.
  cbv zeta in H |- *. destruct H as (H1 & _ & H3 & _).
  split; [exact H1 |]. rewrite H3. vm_compute. reflexivity.
Defined.

Lemma invocation_on_open_session_sends_at_once_witness :
  transactions (snd (subscribe "offer-sdp-1" opened)) =
    [mkTransaction 0 "view" (ViewData "offer-sdp-1" (Some "cam1")) Pending] /\
  sockets (snd (subscribe "offer-sdp-1" opened)) = sockets opened.
Proof.
  assert (Hws : webSocket (run (construct cam1)
                  [Connect "ws://host/ws"; TransportState 0 OPEN; TransportOpen 0])
                = Some 0) by (vm_compute; reflexivity).
  assert (Hrs : readyStateOf 0 (run (construct cam1)
                  [Connect "ws://host/ws"; TransportState 0 OPEN; TransportOpen 0])
                = Some OPEN) by (vm_compute; reflexivity).
  destruct (invocation_on_open_session_sends_at_once cam1
              [Connect "ws://host/ws"; TransportState 0 OPEN; TransportOpen 0]
              "offer-sdp-1" 0 Hws Hrs)
    as (tm & m & Htm & _ & _ & Hsub & _).
  unfold opened. rewrite Hsub. cbn [snd].
  assert (E : tm = 0) by (vm_compute in Htm; congruence).
  rewrite E. split; vm_compute; reflexivity.
Defined.

Lemma invocation_on_closed_session_returns_witness :
  tasks subscribed =
    [mkTask (SubscribeCall "offer-sdp-1") (ViewData "offer-sdp-1" (Some "cam1"))
            [0] (Returned (Some "answer-sdp-1"))].
Proof.
  assert (Hacc : accepts (wsUrl (construct cam1)) = true)
    by (vm_compute; reflexivity).
  assert (Hnull : webSocket (construct cam1) = None) by reflexivity.
  destruct (invocation_on_closed_session_returns (construct cam1)
              (SubscribeCall "offer-sdp-1") (Some "answer-sdp-1") Hnull Hacc)
    as (Ht & _).
  exact Ht.
Defined.

Lemma invocation_with_refused_url_throws_witness :
  run (construct (mkOptions (Some "cam1") "ws://host/ws#frag"))
      [Subscribe "offer-sdp-1"; Resume 0] =
    mkWorld None None (Some "cam1") "ws://host/ws#frag" [] []
      [Rejected SyntaxError] []
      [mkTask (SubscribeCall "offer-sdp-1")
              (ViewData "offer-sdp-1" (Some "cam1")) [] (Threw SyntaxError)]
      [].
Proof.
  assert (Hacc : accepts (wsUrl (construct (mkOptions (Some "cam1")
                                              "ws://host/ws#frag"))) = false)
    by (vm_compute; reflexivity).
  exact (invocation_with_refused_url_throws
           (construct (mkOptions (Some "cam1") "ws://host/ws#frag"))
           (SubscribeCall "offer-sdp-1") (or_introl eq_refl) Hacc).
Defined.

End Instances.
